(** * morph::Anneal: Adaptive Simulated Annealing, a shallow embedding

    The development follows the header that declares [morph::Anneal<T>]:
    the annealer is a record of the class's data members, every member
    function is a function on that record, and the driver protocol
    (construct, [init], then [step] until [ReadyToStop]) is an inductive
    predicate over the record.

    - [T], the template parameter, is a type with the operations the class
      applies to it (interface [Scalar]); <cmath> and [std::numeric_limits]
      are fields of that interface.  An instance over binary64 is given for
      closed computations.
    - [unsigned int] members are [N] with the 32-bit wrap-around written out.
    - [morph::vVector<T>] is [list T].
    - [RandUniform::get] reads the next value of a sequence of draws; the
      position in the sequence is threaded through the calls.
    - The [while] loop of [generate_parameter] has no bound in the source; it
      is run with a budget of iterations. *)

From Stdlib Require Import String NArith ZArith QArith List Bool Lia Floats.
From coqutil Require Import Datatypes.RecordSetters.
Import ListNotations.
Import TriangleBracketNotations.

Local Open Scope N_scope.

(** ** Outcomes of a call *)

(** A call returns a value, throws ([std::runtime_error] with its message),
    runs into behaviour the C++ standard leaves undefined (an out-of-range
    [operator[]], a floating value cast to an [unsigned int] that cannot hold
    it), or is still looping when the iteration budget ends. *)
Inductive outcome (A : Type) : Type :=
| Ret (v : A)
| Throw (what : string)
| Undefined
| OutOfFuel.

Arguments Ret {A} v.
Arguments Throw {A} what.
Arguments Undefined {A}.
Arguments OutOfFuel {A}.

Definition obind {A B} (o : outcome A) (f : A -> outcome B) : outcome B :=
  match o with
  | Ret v => f v
  | Throw w => Throw w
  | Undefined => Undefined
  | OutOfFuel => OutOfFuel
  end.

Definition of_option {A} (o : option A) : outcome A :=
  match o with
  | Some v => Ret v
  | None => Undefined
  end.


(** Computations that draw random numbers: the state is the position in the
    sequence of draws. *)
Definition M (A : Type) : Type := nat -> outcome (A * nat).

Definition ret {A} (v : A) : M A := fun p => Ret (v, p).

Definition bind {A B} (m : M A) (f : A -> M B) : M B :=
  fun p => obind (m p) (fun r => f (fst r) (snd r)).

Definition lift {A} (o : outcome A) : M A :=
  fun p => obind o (fun v => Ret (v, p)).

Declare Scope anneal_scope.
Delimit Scope anneal_scope with anneal.
Notation "x <- m ;; f" := (bind m (fun x => f))
  (at level 61, m at next level, right associativity) : anneal_scope.

(** ** [unsigned int] *)

Definition UINT_MODULUS : N := 2 ^ 32.

(** Arithmetic on [unsigned int] is modulo 2^32. *)
Definition wrap (v : N) : N := v mod UINT_MODULUS.

(** [++v] *)
Definition incr (v : N) : N := wrap (v + 1).

(** ** The scalar type [T] *)

(** What [Anneal<T>] asks of [T] ("expected to be floating point, so float or
    double"): literals, [std::numeric_limits<T>], the arithmetic and
    comparison operators, the <cmath> functions it calls, and the casts from
    and to [unsigned int].  [to_uint] is [None] where the cast is undefined. *)
Class Scalar (T : Type) : Type := {
  lit : Q -> T;
  max_value : T;
  lowest : T;
  epsilon : T;
  add : T -> T -> T;
  sub : T -> T -> T;
  mul : T -> T -> T;
  div : T -> T -> T;
  neg : T -> T;
  ltb : T -> T -> bool;
  leb : T -> T -> bool;
  eqb : T -> T -> bool;
  fabs : T -> T;
  exp : T -> T;
  log : T -> T;
  pow : T -> T -> T;
  isnan : T -> bool;
  isinf : T -> bool;
  of_uint : N -> T;
  to_uint : T -> option N
}.

Section Vectors.

Context {T : Type} {ST : Scalar T}.

(** [a > b] and [a >= b], as the operators of a floating type. *)
Definition gtb (a b : T) : bool := ltb b a.
Definition geb (a b : T) : bool := leb b a.

(** *** [morph::vVector<T>]

    [Anneal<T>] calls members of [vVector] ([exp], [log], [pow], [abs],
    [signum], [mean], [max], [has_zero], [has_nan_or_inf], [set_from] a
    scalar, the comparisons, element-wise [*] and [/]) that the revision of
    [morph/vVector.h] at hand does not declare; there [operator*] between
    vectors is the cross product.  Those operations are the "real vector
    primitive" of the specification, section 2: element-wise arithmetic,
    scalar broadcast, reductions, and comparisons that hold when they hold
    in every component.  In every use below both operands have [D]
    components. *)

Fixpoint zip_with {A B C} (f : A -> B -> C) (l : list A) (r : list B) : list C :=
  match l, r with
  | a :: l', b :: r' => f a b :: zip_with f l' r'
  | _, _ => []
  end.

(** [operator+ (const vVector&)]: a [std::transform] over the components. *)
Definition vadd (v w : list T) : list T := zip_with add v w.

(** [operator- (const vVector&)]: a [std::transform] over the components. *)
Definition vsub (v w : list T) : list T := zip_with sub v w.

(** Modelled from the spec: element-wise [*] of two vectors, the product
    that [Anneal<T>] means by [operator*]. *)
Definition vmul (v w : list T) : list T := zip_with mul v w.

(** Modelled from the spec: element-wise [/] of two vectors, missing from
    [vVector.h]. *)
Definition vdiv (v w : list T) : list T := zip_with div v w.

(** [operator+ (const S&)]: the scalar is added to every component. *)
Definition vadd_s (v : list T) (e : T) : list T := map (fun a => add a e) v.

(** Modelled from the spec: scalar broadcast of [-], every component less
    the scalar. *)
Definition vsub_s (v : list T) (e : T) : list T := map (fun a => sub a e) v.

(** [operator* (const S&)]: every component times the scalar. *)
Definition vmul_s (v : list T) (e : T) : list T := map (fun a => mul a e) v.

(** [operator/ (const S&)]: every component divided by the scalar. *)
Definition vdiv_s (v : list T) (e : T) : list T := map (fun a => div a e) v.

(** Modelled from the spec: scalar broadcast of [/] with the scalar on the
    left, [e / v], missing from [vVector.h]. *)
Definition sdiv_v (e : T) (v : list T) : list T := map (fun a => div e a) v.

(** Unary minus ([vVector::operator-()], a [std::transform] with
    [std::negate]). *)
Definition vneg (v : list T) : list T := map neg v.

(** Modelled from the spec: element-wise [exp], missing from [vVector.h]. *)
Definition vexp (v : list T) : list T := map exp v.

(** Modelled from the spec: element-wise [log], missing from [vVector.h]. *)
Definition vlog (v : list T) : list T := map log v.

(** Modelled from the spec: element-wise [abs], missing from [vVector.h]. *)
Definition vabs (v : list T) : list T := map fabs v.

(** Modelled from the spec: element-wise [pow] by a vector of exponents,
    missing from [vVector.h]. *)
Definition vpow (v w : list T) : list T := zip_with pow v w.

(** Modelled from the spec: element-wise [pow] by one exponent for all the
    components, missing from [vVector.h]. *)
Definition vpow_s (v : list T) (e : T) : list T := map (fun a => pow a e) v.

(** Modelled from the spec: the sign of a component, "-1, 0, or +1". *)
Definition signum (a : T) : T :=
  if gtb a (lit 0) then lit 1
  else if eqb a (lit 0) then lit 0
  else neg (lit 1).

(** Modelled from the spec: element-wise sign ([signum]), missing from
    [vVector.h]. *)
Definition vsignum (v : list T) : list T := map signum v.

(** The sum of the components, from zero, first to last. *)
Definition vsum (v : list T) : T := fold_left add v (lit 0).

(** Modelled from the spec: the reduction [mean], the sum over the number of
    components, missing from [vVector.h]. *)
Definition vmean (v : list T) : T :=
  div (vsum v) (of_uint (N.of_nat (length v))).

(** Modelled from the spec: the reduction [max], missing from [vVector.h]. *)
Definition vmax (v : list T) : T :=
  match v with
  | [] => lit 0
  | a :: v' => fold_left (fun b e => if ltb b e then e else b) v' a
  end.

(** A comparison that holds in every component of two vectors of one
    length. *)
Fixpoint all2 (f : T -> T -> bool) (v w : list T) : bool :=
  match v, w with
  | a :: v', b :: w' => f a b && all2 f v' w'
  | [], [] => true
  | _, _ => false
  end.

(** Modelled from the spec: [operator<=] of two vectors, an "elementwise
    comparison producing an all-true predicate", missing from [vVector.h]. *)
Definition vle (v w : list T) : bool := all2 leb v w.

(** Modelled from the spec: [operator>=] of two vectors, all-true likewise,
    missing from [vVector.h]. *)
Definition vge (v w : list T) : bool := all2 geb v w.

(** Modelled from the spec: [operator>] of a vector and a scalar, all-true
    likewise, missing from [vVector.h]. *)
Definition vgt_s (v : list T) (e : T) : bool := forallb (fun a => gtb a e) v.

(** Modelled from the spec: "has a zero element" ([has_zero]), missing from
    [vVector.h]. *)
Definition has_zero (v : list T) : bool := existsb (fun a => eqb a (lit 0)) v.

(** Modelled from the spec: "has NaN/Inf" ([has_nan_or_inf]), missing from
    [vVector.h]. *)
Definition has_nan_or_inf (v : list T) : bool :=
  existsb (fun a => isnan a || isinf a) v.

(** [vVector::zero()]: [std::fill] with [S{0}]. *)
Definition vzero (v : list T) : list T := map (fun _ => lit 0) v.

(** Modelled from the spec: "broadcast from scalar" ([set_from] a scalar),
    missing from [vVector.h]. *)
Definition set_from (v : list T) (e : T) : list T := map (fun _ => e) v.

(** [std::vector::resize (count, value)]: keeps the first [count] elements
    and appends copies of [value] up to [count]. *)
Definition resize {A} (count : nat) (value : A) (v : list A) : list A :=
  firstn count v ++ repeat value (count - length v).

End Vectors.

(** ** The annealer *)

(** [enum class Anneal_State] *)
Inductive Anneal_State : Type :=
| Unknown
| NeedToInit
| NeedToStep
| NeedToCompute
| NeedToComputeSet
| ReadyToStop.

Definition Anneal_State_eqb (p q : Anneal_State) : bool :=
  match p, q with
  | Unknown, Unknown
  | NeedToInit, NeedToInit
  | NeedToStep, NeedToStep
  | NeedToCompute, NeedToCompute
  | NeedToComputeSet, NeedToComputeSet
  | ReadyToStop, ReadyToStop => true
  | _, _ => false
  end.

(** The data members of [class Anneal], in the order of their declaration.
    The member [rng_u] is the sequence of draws. *)
Record Anneal (T : Type) : Type := {
  (* algorithm parameters to be adjusted by the user *)
  downhill : bool;
  temperature_ratio_scale : T;
  temperature_anneal_scale : T;
  cost_parameter_scale_ratio : T;
  acc_gen_reanneal_ratio : T;
  partials_samples : N;
  f_x_best_repeat_max : N;
  reanneal_after_steps : N;
  (* parameter vectors and objective function results *)
  x_cand : list T;
  f_x_cand : T;
  x : list T;
  f_x : T;
  x_best : list T;
  f_x_best : T;
  f_x_best_repeats : N;
  x_set : list (list T);
  f_x_set : list T;
  (* statistical records and state *)
  num_improved : N;
  num_worse : N;
  num_worse_accepted : N;
  num_accepted : N;
  steps : N;
  param_hist : list (list T);
  f_param_hist : list T;
  state : Anneal_State;
  (* internal algorithm parameters *)
  D : N;
  k : N;
  k_r : N;
  k_f : N;
  temp : list T;
  temp_0 : list T;
  temp_f : list T;
  m : list T;
  n : list T;
  c : list T;
  c_cost : list T;
  temp_cost_0 : list T;
  temp_cost : list T;
  range_min : list T;
  range_max : list T;
  rdelta : list T;
  rmeans : list T;
  s : list T;
  s_max : list T;
  partials : list T
}.

Arguments Build_Anneal {T}.
Arguments downhill {T} _.
Arguments temperature_ratio_scale {T} _.
Arguments temperature_anneal_scale {T} _.
Arguments cost_parameter_scale_ratio {T} _.
Arguments acc_gen_reanneal_ratio {T} _.
Arguments partials_samples {T} _.
Arguments f_x_best_repeat_max {T} _.
Arguments reanneal_after_steps {T} _.
Arguments x_cand {T} _.
Arguments f_x_cand {T} _.
Arguments x {T} _.
Arguments f_x {T} _.
Arguments x_best {T} _.
Arguments f_x_best {T} _.
Arguments f_x_best_repeats {T} _.
Arguments x_set {T} _.
Arguments f_x_set {T} _.
Arguments num_improved {T} _.
Arguments num_worse {T} _.
Arguments num_worse_accepted {T} _.
Arguments num_accepted {T} _.
Arguments steps {T} _.
Arguments param_hist {T} _.
Arguments f_param_hist {T} _.
Arguments state {T} _.
Arguments D {T} _.
Arguments k {T} _.
Arguments k_r {T} _.
Arguments k_f {T} _.
Arguments temp {T} _.
Arguments temp_0 {T} _.
Arguments temp_f {T} _.
Arguments m {T} _.
Arguments n {T} _.
Arguments c {T} _.
Arguments c_cost {T} _.
Arguments temp_cost_0 {T} _.
Arguments temp_cost {T} _.
Arguments range_min {T} _.
Arguments range_max {T} _.
Arguments rdelta {T} _.
Arguments rmeans {T} _.
Arguments s {T} _.
Arguments s_max {T} _.
Arguments partials {T} _.

(** Field updates [a <| f := v |>]: one setter per data member. *)
#[global] Instance set_downhill {T} : Setter (@downhill T) := ltac:(typeclasses eauto).
#[global] Instance set_temperature_ratio_scale {T} : Setter (@temperature_ratio_scale T) := ltac:(typeclasses eauto).
#[global] Instance set_temperature_anneal_scale {T} : Setter (@temperature_anneal_scale T) := ltac:(typeclasses eauto).
#[global] Instance set_cost_parameter_scale_ratio {T} : Setter (@cost_parameter_scale_ratio T) := ltac:(typeclasses eauto).
#[global] Instance set_acc_gen_reanneal_ratio {T} : Setter (@acc_gen_reanneal_ratio T) := ltac:(typeclasses eauto).
#[global] Instance set_partials_samples {T} : Setter (@partials_samples T) := ltac:(typeclasses eauto).
#[global] Instance set_f_x_best_repeat_max {T} : Setter (@f_x_best_repeat_max T) := ltac:(typeclasses eauto).
#[global] Instance set_reanneal_after_steps {T} : Setter (@reanneal_after_steps T) := ltac:(typeclasses eauto).
#[global] Instance set_x_cand {T} : Setter (@x_cand T) := ltac:(typeclasses eauto).
#[global] Instance set_f_x_cand {T} : Setter (@f_x_cand T) := ltac:(typeclasses eauto).
#[global] Instance set_x {T} : Setter (@x T) := ltac:(typeclasses eauto).
#[global] Instance set_f_x {T} : Setter (@f_x T) := ltac:(typeclasses eauto).
#[global] Instance set_x_best {T} : Setter (@x_best T) := ltac:(typeclasses eauto).
#[global] Instance set_f_x_best {T} : Setter (@f_x_best T) := ltac:(typeclasses eauto).
#[global] Instance set_f_x_best_repeats {T} : Setter (@f_x_best_repeats T) := ltac:(typeclasses eauto).
#[global] Instance set_x_set {T} : Setter (@x_set T) := ltac:(typeclasses eauto).
#[global] Instance set_f_x_set {T} : Setter (@f_x_set T) := ltac:(typeclasses eauto).
#[global] Instance set_num_improved {T} : Setter (@num_improved T) := ltac:(typeclasses eauto).
#[global] Instance set_num_worse {T} : Setter (@num_worse T) := ltac:(typeclasses eauto).
#[global] Instance set_num_worse_accepted {T} : Setter (@num_worse_accepted T) := ltac:(typeclasses eauto).
#[global] Instance set_num_accepted {T} : Setter (@num_accepted T) := ltac:(typeclasses eauto).
#[global] Instance set_steps {T} : Setter (@steps T) := ltac:(typeclasses eauto).
#[global] Instance set_param_hist {T} : Setter (@param_hist T) := ltac:(typeclasses eauto).
#[global] Instance set_f_param_hist {T} : Setter (@f_param_hist T) := ltac:(typeclasses eauto).
#[global] Instance set_state {T} : Setter (@state T) := ltac:(typeclasses eauto).
#[global] Instance set_D {T} : Setter (@D T) := ltac:(typeclasses eauto).
#[global] Instance set_k {T} : Setter (@k T) := ltac:(typeclasses eauto).
#[global] Instance set_k_r {T} : Setter (@k_r T) := ltac:(typeclasses eauto).
#[global] Instance set_k_f {T} : Setter (@k_f T) := ltac:(typeclasses eauto).
#[global] Instance set_temp {T} : Setter (@temp T) := ltac:(typeclasses eauto).
#[global] Instance set_temp_0 {T} : Setter (@temp_0 T) := ltac:(typeclasses eauto).
#[global] Instance set_temp_f {T} : Setter (@temp_f T) := ltac:(typeclasses eauto).
#[global] Instance set_m {T} : Setter (@m T) := ltac:(typeclasses eauto).
#[global] Instance set_n {T} : Setter (@n T) := ltac:(typeclasses eauto).
#[global] Instance set_c {T} : Setter (@c T) := ltac:(typeclasses eauto).
#[global] Instance set_c_cost {T} : Setter (@c_cost T) := ltac:(typeclasses eauto).
#[global] Instance set_temp_cost_0 {T} : Setter (@temp_cost_0 T) := ltac:(typeclasses eauto).
#[global] Instance set_temp_cost {T} : Setter (@temp_cost T) := ltac:(typeclasses eauto).
#[global] Instance set_range_min {T} : Setter (@range_min T) := ltac:(typeclasses eauto).
#[global] Instance set_range_max {T} : Setter (@range_max T) := ltac:(typeclasses eauto).
#[global] Instance set_rdelta {T} : Setter (@rdelta T) := ltac:(typeclasses eauto).
#[global] Instance set_rmeans {T} : Setter (@rmeans T) := ltac:(typeclasses eauto).
#[global] Instance set_s {T} : Setter (@s T) := ltac:(typeclasses eauto).
#[global] Instance set_s_max {T} : Setter (@s_max T) := ltac:(typeclasses eauto).
#[global] Instance set_partials {T} : Setter (@partials T) := ltac:(typeclasses eauto).

(** [v[i] = e]: [operator[]] with an index past the end is undefined. *)
Definition store {A} (i : nat) (e : A) (v : list A) : option (list A) :=
  if (i <? length v)%nat then Some (firstn i v ++ e :: skipn (S i) v) else None.

Section Annealer.

Context {T : Type} {ST : Scalar T}.

(** The values handed out by [RandUniform<T>::get], in the order of the
    calls (uniform in [0,1) for a floating [T]). *)
Variable draws : nat -> T.

Local Open Scope anneal_scope.

(** [RandUniform<T>::get] *)
Definition rng_get : M T := fun p => Ret (draws p, S p).

(** [vVector::randomize()] on a vector of [len] elements: one [get] per
    element, first to last. *)
Fixpoint randomize (len : nat) : M (list T) :=
  match len with
  | O => ret []
  | S len' => e <- rng_get ;; r <- randomize len' ;; ret (e :: r)
  end.

(** The default member initialisers of the class. *)
Definition Anneal_members : Anneal T := {|
  downhill := true;
  temperature_ratio_scale := lit (1 # 100000);
  temperature_anneal_scale := lit 100;
  cost_parameter_scale_ratio := lit 1;
  acc_gen_reanneal_ratio := lit (7 # 10);
  partials_samples := 2;
  f_x_best_repeat_max := 10;
  reanneal_after_steps := 100;
  x_cand := [];
  f_x_cand := lit 0;
  x := [];
  f_x := lit 0;
  x_best := [];
  f_x_best := lit 0;
  f_x_best_repeats := 0;
  x_set := [];
  f_x_set := [];
  num_improved := 0;
  num_worse := 0;
  num_worse_accepted := 0;
  num_accepted := 0;
  steps := 0;
  param_hist := [];
  f_param_hist := [];
  state := Unknown;
  D := 0;
  k := 1;
  k_r := 0;
  k_f := 1;
  temp := [];
  temp_0 := [];
  temp_f := [];
  m := [];
  n := [];
  c := [];
  c_cost := [];
  temp_cost_0 := [];
  temp_cost := [];
  range_min := [];
  range_max := [];
  rdelta := [];
  rmeans := [];
  s := [];
  s_max := [];
  partials := []
|}.

(** The constructor's loop [for (auto pr : param_ranges)], from index [i]:
    [range_min[i] = pr[0]; range_max[i] = pr[1]; ++i]. *)
Fixpoint fill_ranges (param_ranges : list (T * T)) (i : nat) (rmin rmax : list T)
  : outcome (list T * list T) :=
  match param_ranges with
  | [] => Ret (rmin, rmax)
  | pr :: rest =>
      obind (of_option (store i (fst pr) rmin)) (fun rmin' =>
      obind (of_option (store i (snd pr) rmax)) (fun rmax' =>
      fill_ranges rest (S i) rmin' rmax'))
  end.

(** [Anneal::Anneal (initial_params, param_ranges)] *)
Definition Anneal_new (initial_params : list T) (param_ranges : list (T * T))
  : outcome (Anneal T) :=
  let a := Anneal_members in
  let a := a <| D := wrap (N.of_nat (length initial_params)) |> in
  let a := a <| range_min := resize (N.to_nat (D a)) (lit 0) (range_min a) |> in
  let a := a <| range_max := resize (N.to_nat (D a)) (lit 0) (range_max a) |> in
  obind (fill_ranges param_ranges 0 (range_min a) (range_max a)) (fun r =>
  let a := a <| range_min := fst r |> <| range_max := snd r |> in
  let a := a <| rdelta := vsub (range_max a) (range_min a) |> in
  let a := a <| rmeans := vdiv_s (vadd (range_max a) (range_min a)) (lit 2) |> in
  let a := a <| x_cand := initial_params |> in
  let a := a <| x_best := initial_params |> in
  let a := a <| x := initial_params |> in
  Ret (a <| state := NeedToInit |>)).

(** [Anneal::init] *)
Definition init (a : Anneal T) : outcome (Anneal T) :=
  let d := N.to_nat (D a) in
  let a := a <| f_x_best := if downhill a then max_value else lowest |> in
  let a := a <| f_x := f_x_best a |> in
  let a := a <| f_x_cand := f_x_best a |> in
  let a := a <| x := resize d (lit 0) (x a) |> in
  let a := a <| x_cand := resize d (lit 0) (x_cand a) |> in
  let a := a <| x_best := resize d (lit 0) (x_best a) |> in
  let a := a <| temp_0 := resize d (lit 1) (temp_0 a) |> in
  let a := a <| temp := resize d (lit 1) (temp a) |> in
  let a := a <| s := resize d (lit 1) (s a) |> in
  let a := a <| s_max := resize d (lit 1) (s_max a) |> in
  let a := a <| partials := resize d (lit 1) (partials a) |> in
  let a := a <| m := resize d (lit 0) (m a) |> in
  let a := a <| m := set_from (m a) (neg (log (temperature_ratio_scale a))) |> in
  let a := a <| n := resize d (lit 0) (n a) |> in
  let a := a <| n := set_from (n a) (log (temperature_anneal_scale a)) |> in
  let a := a <| temp_f := vmul (temp_0 a) (vexp (vneg (m a))) |> in
  obind (of_option (to_uint (exp (vmean (n a))))) (fun kf =>
  let a := a <| k_f := kf |> in
  let a := a <| c := resize d (lit 1) (c a) |> in
  let a := a <| c := vmul (m a) (vexp (vdiv_s (vneg (n a)) (of_uint (D a)))) |> in
  let a := a <| c_cost := vmul_s (c a) (cost_parameter_scale_ratio a) |> in
  let a := a <| temp_cost_0 := c_cost a |> in
  let a := a <| temp_cost := c_cost a |> in
  Ret (a <| state := NeedToCompute |>)).

(** One turn of the loop of [generate_parameter]: the point [x_new] made
    from the draws [u]. *)
Definition perturb (a : Anneal T) (x_start u : list T) : list T :=
  let u2 := vabs (vsub_s (vmul_s u (lit 2)) (lit 1)) in
  let sigu := vsignum (vsub_s u (lit (1 # 2))) in
  let y := vmul (vmul sigu (temp a))
                (vsub_s (vpow (vadd_s (sdiv_v (lit 1) (temp a)) (lit 1)) u2)
                        (lit 1)) in
  vadd x_start y.

(** The flag [generated] at the end of a turn that began with it [false]. *)
Definition generated_flag (a : Anneal T) (x_start : list T) (force_change : bool)
  (x_new : list T) : bool :=
  let generated := false in
  let generated :=
    if vle x_new (range_max a) && vge x_new (range_min a)
    then true else generated in
  if Bool.eqb force_change true && has_zero (vsub x_new x_start)
  then false else generated.

(** [Anneal::generate_parameter (x_start, force_change)], with at most [fuel]
    turns of its loop [while (!generated)]. *)
Fixpoint generate_parameter (fuel : nat) (a : Anneal T) (x_start : list T)
  (force_change : bool) : M (list T) :=
  match fuel with
  | O => fun _ => OutOfFuel
  | S fuel' =>
      u <- randomize (N.to_nat (D a)) ;;
      let x_new := perturb a x_start u in
      if generated_flag a x_start force_change x_new then ret x_new
      else generate_parameter fuel' a x_start force_change
  end.

(** [Anneal::generate_next] *)
Definition generate_next (fuel : nat) (a : Anneal T) : M (Anneal T) :=
  v <- generate_parameter fuel a (x a) false ;;
  ret (a <| x_cand := v |>).

(** [Anneal::cooling_schedule] *)
Definition cooling_schedule (a : Anneal T) : Anneal T :=
  let a := a <| temp :=
    vmul (temp_0 a)
         (vexp (vmul_s (vneg (c a))
                       (pow (of_uint (k a)) (div (lit 1) (of_uint (D a)))))) |> in
  a <| temp_cost :=
    vmul (temp_cost_0 a)
         (vexp (vmul_s (vneg (c_cost a))
                       (pow (of_uint (num_accepted a))
                            (div (lit 1) (of_uint (D a)))))) |>.

(** The test of [acceptance_check] on the candidate against the current
    point. *)
Definition candidate_is_better (a : Anneal T) : bool :=
  (Bool.eqb (downhill a) true && ltb (f_x_cand a) (f_x a))
  || (Bool.eqb (downhill a) false && gtb (f_x_cand a) (f_x a)).

(** The acceptance probability [p] of [acceptance_check]. *)
Definition acceptance_p (a : Anneal T) : T :=
  exp (div (neg (sub (f_x_cand a) (f_x a)))
           (add epsilon (vmean (temp_cost a)))).

(** The body of [if (accepted) { ... }] in [acceptance_check]. *)
Definition accept_candidate (a : Anneal T) : Anneal T :=
  let a := a <| x := x_cand a |> in
  let a := a <| f_x := f_x_cand a |> in
  let a := a <| param_hist := param_hist a ++ [x a] |> in
  let a := a <| f_param_hist := f_param_hist a ++ [f_x a] |> in
  let a := a <| f_x_best_repeats :=
    wrap (f_x_best_repeats a + (if eqb (f_x_cand a) (f_x_best a) then 1 else 0)) |> in
  let a :=
    if ltb (f_x_cand a) (f_x_best a)
    then a <| f_x_best_repeats := 0 |> <| x_best := x_cand a |>
    else a <| x_best := x_best a |> in
  let a := a <| f_x_best :=
    if ltb (f_x_cand a) (f_x_best a) then f_x_cand a else f_x_best a |> in
  a <| num_accepted := incr (num_accepted a) |>.

(** [Anneal::acceptance_check] *)
Definition acceptance_check (a : Anneal T) : M (Anneal T) :=
  let better := candidate_is_better a in
  let a :=
    if better then a <| num_improved := incr (num_improved a) |>
    else a <| num_worse := incr (num_worse a) |> in
  let p := acceptance_p a in
  u <- rng_get ;;
  let accepted := if gtb p u then true else false in
  let a :=
    if negb better && accepted
    then a <| num_worse_accepted := incr (num_worse_accepted a) |>
    else a in
  ret (if accepted then accept_candidate a else a).

(** [Anneal::accepted_vs_generated] *)
Definition accepted_vs_generated (a : Anneal T) : T :=
  div (of_uint (num_accepted a)) (of_uint (wrap (num_improved a + num_worse a))).

(** The loop of [reanneal_test]: [x_set[ps] = generate_parameter (x, true)]
    for the [count] indices from [ps]. *)
Fixpoint fill_x_set (fuel : nat) (count ps : nat) (a : Anneal T) : M (Anneal T) :=
  match count with
  | O => ret a
  | S count' =>
      v <- generate_parameter fuel a (x a) true ;;
      xs <- lift (of_option (store ps v (x_set a))) ;;
      fill_x_set fuel count' (S ps) (a <| x_set := xs |>)
  end.

(** [Anneal::reanneal_test] *)
Definition reanneal_test (fuel : nat) (a : Anneal T) : M (bool * Anneal T) :=
  if (k_r a <? reanneal_after_steps a)
     && geb (accepted_vs_generated a) (acc_gen_reanneal_ratio a)
  then ret (false, a)
  else
    let a := a <| x_set := resize (N.to_nat (partials_samples a)) [] (x_set a) |> in
    let a := a <| f_x_set := resize (N.to_nat (partials_samples a)) (lit 0) (f_x_set a) |> in
    a <- fill_x_set fuel (N.to_nat (partials_samples a)) 0 a ;;
    ret (true, a).

(** [Anneal::reset_stats] *)
Definition reset_stats (a : Anneal T) : Anneal T :=
  a <| num_improved := 0 |> <| num_worse := 0 |> <| num_worse_accepted := 0 |>
    <| num_accepted := 0 |> <| k_r := 0 |>.

(** The first loop of [complete_reanneal]:
    [partials += (f_x_set[i] - f_x) / (x_set[i] - x)] for the [count] indices
    from [i]. *)
Fixpoint sum_partials (count i : nat) (a : Anneal T) : outcome (Anneal T) :=
  match count with
  | O => Ret a
  | S count' =>
      obind (of_option (nth_error (f_x_set a) i)) (fun fi =>
      obind (of_option (nth_error (x_set a) i)) (fun xi =>
      sum_partials count' (S i)
        (a <| partials :=
           vadd (partials a) (sdiv_v (sub fi (f_x a)) (vsub xi (x a))) |>)))
  end.

(** The new step count of [complete_reanneal]: the [unsigned int] that
    [static_cast] makes of the mean. *)
Definition k_re_of (a : Anneal T) (temp_re : list T) : option N :=
  to_uint (vmean (vpow_s (vdiv (vlog (vdiv (temp_0 a) temp_re)) (c a))
                         (of_uint (D a)))).

(** The first part of [complete_reanneal]: the average of the difference
    quotients, left in [partials]. *)
Definition estimate_partials (a : Anneal T) : outcome (Anneal T) :=
  let a := a <| partials := vzero (partials a) |> in
  obind (sum_partials (N.to_nat (partials_samples a)) 0 a) (fun a =>
  Ret (a <| partials := vdiv_s (partials a) (of_uint (partials_samples a)) |>)).

(** [this->s = -this->rdelta * this->partials] *)
Definition sensitivities (a : Anneal T) : Anneal T :=
  a <| s := vmul (vneg (rdelta a)) (partials a) |>.

(** [temp_re = this->temp * (this->s.max()/this->s)] *)
Definition rescaled_temp (a : Anneal T) : list T :=
  vmul (temp a) (sdiv_v (vmax (s a)) (s a)).

(** [Anneal::complete_reanneal] *)
Definition complete_reanneal (a : Anneal T) : outcome (Anneal T) :=
  obind (estimate_partials a) (fun a =>
  if has_nan_or_inf (partials a) then Throw "NaN or inf in partials"
  else if has_zero (partials a) then Ret (reset_stats a)
  else
    let a := sensitivities a in
    let temp_re := rescaled_temp a in
    if vgt_s temp_re (lit 0) then
      obind (of_option (k_re_of a temp_re)) (fun k_re =>
      let a := a <| k := k_re |> in
      let a := a <| temp := temp_re |> in
      Ret (reset_stats a))
    else Ret (reset_stats a)).

(** [Anneal::stop_check] *)
Definition stop_check (a : Anneal T) : bool :=
  if f_x_best_repeat_max a <=? f_x_best_repeats a then true else false.

(** The part of [step] up to the stopping test: the count of calls, and the
    reanneal to complete when the client has computed the set. *)
Definition step_enter (a : Anneal T) : outcome (Anneal T) :=
  let a := a <| steps := incr (steps a) |> in
  if Anneal_State_eqb (state a) NeedToComputeSet
  then obind (complete_reanneal a) (fun a => Ret (a <| state := NeedToStep |>))
  else Ret a.

(** The part of [step] between the stopping test and [reanneal_test]. *)
Definition step_advance (fuel : nat) (a : Anneal T) : M (Anneal T) :=
  let a := cooling_schedule a in
  a <- acceptance_check a ;;
  a <- generate_next fuel a ;;
  let a := a <| k := incr (k a) |> in
  let a := a <| k_r := incr (k_r a) |> in
  ret a.

(** [Anneal::step] *)
Definition step (fuel : nat) (a : Anneal T) : M (Anneal T) :=
  a <- lift (step_enter a) ;;
  if stop_check a then ret (a <| state := ReadyToStop |>)
  else
    a <- step_advance fuel a ;;
    r <- reanneal_test fuel a ;;
    if fst r then ret ((snd r) <| state := NeedToComputeSet |>)
    else ret ((snd r) <| state := NeedToCompute |>).

End Annealer.

(** ** The client *)

Section Client.

Context {T : Type} {ST : Scalar T}.

Local Open Scope anneal_scope.

(** "Algorithm parameters to be adjusted by user": what the client may set
    between the construction and [init]. *)
Definition configure (dh : bool) (trs tas cpsr agrr : T) (ps fmax ras : N)
  (a : Anneal T) : Anneal T :=
  a <| downhill := dh |>
    <| temperature_ratio_scale := trs |>
    <| temperature_anneal_scale := tas |>
    <| cost_parameter_scale_ratio := cpsr |>
    <| acc_gen_reanneal_ratio := agrr |>
    <| partials_samples := ps |>
    <| f_x_best_repeat_max := fmax |>
    <| reanneal_after_steps := ras |>.


(** What [Anneal::state] asks of the client before the next call of [step]:
    the objective of the candidate ([NeedToCompute]) or of every member of
    [x_set] ([NeedToComputeSet]). *)
Definition evaluate (obj : list T -> T) (a : Anneal T) : Anneal T :=
  match state a with
  | NeedToCompute => a <| f_x_cand := obj (x_cand a) |>
  | NeedToComputeSet => a <| f_x_set := map obj (x_set a) |>
  | _ => a
  end.


(** The client's loop, for at most [calls] calls of [step]. *)
Fixpoint drive (draws : nat -> T) (fuel : nat) (obj : list T -> T) (calls : nat)
  (a : Anneal T) : M (Anneal T) :=
  match calls with
  | O => ret a
  | S calls' =>
      if Anneal_State_eqb (state a) ReadyToStop then ret a
      else a' <- step draws fuel (evaluate obj a) ;; drive draws fuel obj calls' a'
  end.

(** Every component of [v] is within [range_min, range_max] (bounds
    included), as [operator<=] and [operator>=] of [T] decide. *)
Definition within (a : Anneal T) (v : list T) : Prop :=
  Forall2 (fun e hi => leb e hi = true) v (range_max a)
  /\ Forall2 (fun e lo => leb lo e = true) v (range_min a).

(** The condition of [reanneal_test] under which no reanneal starts. *)
Definition no_reanneal (a : Anneal T) : bool :=
  (k_r a <? reanneal_after_steps a)
  && geb (accepted_vs_generated a) (acc_gen_reanneal_ratio a).




(** The three counters that [acceptance_check] writes before it accepts. *)
Definition with_counts (ni nw nwa : N) (a : Anneal T) : Anneal T :=
  a <| num_improved := ni |> <| num_worse := nw |> <| num_worse_accepted := nwa |>.



(** *** Descriptions of the states of a run *)







End Client.

(** ** [T = double] *)

(** IEEE 754 binary64 with the kernel's floating-point operations.  <cmath>
    is not part of the repository: [exp], [log] and [pow] below stand in for
    it in closed computations.  They return what the C standard fixes
    ([exp (+-0) = 1], [exp (+inf) = +inf], [exp (-inf) = 0], [log 1 = 0],
    [pow (b, +-0) = 1], [pow (b, 1) = b], NaN for NaN) and elsewhere a
    polynomial approximation good to a few units in the last place.  Every
    theorem that is not a closed computation holds for all instances of
    [Scalar]. *)
Module Binary64.

Local Open Scope float_scope.

Definition of_Z (z : Z) : float :=
  match z with
  | Z0 => 0
  | Zpos _ => of_uint63 (Uint63.of_Z z)
  | Zneg _ => - of_uint63 (Uint63.of_Z (Z.opp z))
  end.

(** The integer part of a finite value: the fraction is dropped. *)
Definition trunc (f : float) : option Z :=
  match Prim2SF f with
  | S754_zero _ => Some 0%Z
  | S754_finite sg mant e =>
      let mag :=
        (if 0 <=? e then Zpos mant * 2 ^ e else Zpos mant / 2 ^ (- e))%Z in
      Some (if sg then - mag else mag)%Z
  | _ => None
  end.

(** [static_cast<unsigned int>]: "the fractional part is discarded; the
    behaviour is undefined if the truncated value cannot be represented". *)
Definition to_uint (f : float) : option N :=
  match trunc f with
  | Some z => if ((0 <=? z) && (z <? 2 ^ 32))%Z then Some (Z.to_N z) else None
  | None => None
  end.

Definition ln2_hi : float := 0x1.62e42feep-1.
Definition ln2_lo : float := 0x1.a39ef35793c76p-33.
Definition inv_ln2 : float := 0x1.71547652b82fep+0.

Fixpoint horner (coeffs : list float) (r : float) : float :=
  match coeffs with
  | [] => 0
  | a :: rest => a + r * horner rest r
  end.

(** 1/i! for i = 0 .. 13 *)
Definition exp_coeffs : list float :=
  [1; 1; 1/2; 1/6; 1/24; 1/120; 1/720; 1/5040; 1/40320; 1/362880;
   1/3628800; 1/39916800; 1/479001600; 1/6227020800].

Definition exp (v : float) : float :=
  if is_nan v then nan
  else if 0x1.62e42fefa39efp+9 <? v then infinity
  else if v <? -746 then 0
  else
    let q := (v * inv_ln2 + 0x1.8p52) - 0x1.8p52 in
    let r := (v - q * ln2_hi) - q * ln2_lo in
    match trunc q with
    | Some e => Z.ldexp (horner exp_coeffs r) e
    | None => nan
    end.

(** 1/(2i+1) for i = 0 .. 11 *)
Definition atanh_coeffs : list float :=
  [1; 1/3; 1/5; 1/7; 1/9; 1/11; 1/13; 1/15; 1/17; 1/19; 1/21; 1/23].

Definition log (v : float) : float :=
  if is_nan v then nan
  else if v <? 0 then nan
  else if v =? 0 then neg_infinity
  else if is_infinity v then infinity
  else
    let (fr, e) := Z.frexp v in
    let (fr, e) :=
      if fr <? 0x1.6a09e667f3bcdp-1 then (2 * fr, (e - 1)%Z) else (fr, e) in
    let z := (fr - 1) / (fr + 1) in
    of_Z e * ln2_hi + (of_Z e * ln2_lo + 2 * z * horner atanh_coeffs (z * z)).

Definition is_integer (v : float) : bool :=
  match trunc v with
  | Some z => of_Z z =? v
  | None => is_infinity v
  end.

Definition is_odd (v : float) : bool :=
  match trunc v with
  | Some z => (of_Z z =? v) && Z.odd z
  | None => false
  end.

Definition pow (b e : float) : float :=
  if e =? 0 then 1
  else if b =? 1 then 1
  else if is_nan b || is_nan e then nan
  else if e =? 1 then b
  else if 0 <? b then exp (e * log b)
  else if b =? 0 then (if 0 <? e then 0 else infinity)
  else if is_integer e
       then (if is_odd e then - exp (e * log (- b)) else exp (e * log (- b)))
       else nan.

(** A decimal literal: the quotient of two integers, rounded once. *)
Definition lit (q : Q) : float := of_Z (Qnum q) / of_Z (Zpos (Qden q)).

(** [std::numeric_limits<double>::max()] and [epsilon()]; [lowest()] is
    [-max()]. *)
Definition max_value : float := 0x1.fffffffffffffp+1023.
Definition epsilon : float := 0x1p-52.

End Binary64.

#[global] Instance binary64 : Scalar float := {|
  lit := Binary64.lit;
  max_value := Binary64.max_value;
  lowest := PrimFloat.opp Binary64.max_value;
  epsilon := Binary64.epsilon;
  add := PrimFloat.add;
  sub := PrimFloat.sub;
  mul := PrimFloat.mul;
  div := PrimFloat.div;
  neg := PrimFloat.opp;
  ltb := PrimFloat.ltb;
  leb := PrimFloat.leb;
  eqb := PrimFloat.eqb;
  fabs := PrimFloat.abs;
  exp := Binary64.exp;
  log := Binary64.log;
  pow := Binary64.pow;
  isnan := PrimFloat.is_nan;
  isinf := PrimFloat.is_infinity;
  of_uint := fun v => Binary64.of_Z (Z.of_N v);
  to_uint := Binary64.to_uint
|}.

(** ** Closed runs on [double] *)

(** Two parameters in [-5, 5] x [-5, 5], started at (3, 1); the draws cycle
    through a fixed table; three objectives. *)
Module Run.

Local Open Scope float_scope.

Definition initial_params : list float := [3; 1].
Definition param_ranges : list (float * float) := [(-5, 5); (-5, 5)].

Definition tape (p : nat) : float :=
  nth p [0.75; 0.25; 0.5; 0.875; 0.125; 0.625; 0.75; 0.375; 0.25; 0.875;
         0.625; 0.125] 0.75.

Definition fuel : nat := 5.

Definition bowl (v : list float) : float :=
  match v with
  | [e1; e2] => e1 * e1 + 3 * e2
  | _ => 0
  end.
Definition flat (v : list float) : float := 7.
Definition abyss (v : list float) : float := neg_infinity.

Definition settle (o : outcome (Anneal float)) : Anneal float :=
  match o with
  | Ret a => a
  | _ => Anneal_members
  end.

Definition settle_call (o : outcome (Anneal float * nat)) : Anneal float * nat :=
  match o with
  | Ret r => r
  | _ => (Anneal_members, O)
  end.

(** The constructed object. *)
Definition fresh : Anneal float := settle (Anneal_new initial_params param_ranges).

(** The object as configured: the defaults of the class, but for [downhill],
    [f_x_best_repeat_max] and [reanneal_after_steps]. *)
Definition start (dh : bool) (fmax ras : N) : Anneal float :=
  configure dh (lit (1 # 100000)) (lit 100) (lit 1) (lit (7 # 10)) 2 fmax ras fresh.

(** After [init], with the draws at their beginning. *)
Definition begin (dh : bool) (fmax ras : N) : Anneal float * nat :=
  (settle (init (start dh fmax ras)), O).

(** The client computes what is asked and calls [step]. *)
Definition call (obj : list float -> float) (r : Anneal float * nat)
  : Anneal float * nat :=
  settle_call (step tape fuel (evaluate obj (fst r)) (snd r)).


(** The constant objective with a reanneal every two steps. *)
Definition level0 := begin true 10 2.
Definition level1 := call flat level0.
Definition level2 := call flat level1.



(** Ascending ([downhill = false]). *)
Definition climb0 := begin false 10 100.
Definition climb1 := call bowl climb0.
Definition sink1 := call abyss climb0.

End Run.

(** ** [morph::vVector<S>], member by member *)

(** The members that [morph/vVector.h] declares, as the header writes them:
    over [std::copy], [std::transform] and [std::accumulate], whose output
    range is the caller's to provide.  A read or a write past the end of a
    vector is undefined. *)

Declare Scope outcome_scope.
Delimit Scope outcome_scope with outcome.
Notation "x <- o ;; f" := (obind o (fun x => f))
  (at level 61, o at next level, right associativity) : outcome_scope.

(** [operator[]] read at [i]. *)
Definition subscript {A} (v : list A) (i : nat) : outcome A := of_option (nth_error v i).

(** [std::copy (first, last, d_first)] with [d_first] the position [i] of
    [dst]: the elements of [src] are written to [dst[i]], [dst[i+1]], ... *)
Fixpoint std_copy {A} (src : list A) (i : nat) (dst : list A) : outcome (list A) :=
  match src with
  | [] => Ret dst
  | e :: src' =>
      obind (of_option (store i e dst)) (fun dst' => std_copy src' (S i) dst')
  end.

(** [std::transform (first, last, d_first, op)], likewise.  The function
    object is called once per element, in order; [op j] is its [j]-th call,
    which is how a [mutable] lambda that advances a captured iterator reads
    the [j]-th element of another vector. *)
Fixpoint std_transform {A B} (op : nat -> A -> outcome B) (src : list A) (i : nat)
  (dst : list B) : outcome (list B) :=
  match src with
  | [] => Ret dst
  | e :: src' =>
      obind (op i e) (fun r =>
      obind (of_option (store i r dst)) (fun dst' =>
      std_transform op src' (S i) dst'))
  end.

(** [std::accumulate (first, last, init, op)], likewise. *)
Fixpoint std_accumulate {A B} (op : nat -> B -> A -> outcome B) (src : list A) (i : nat)
  (init : B) : outcome B :=
  match src with
  | [] => Ret init
  | e :: src' => obind (op i init e) (fun acc => std_accumulate op src' (S i) acc)
  end.

Module vVector.

Section Members.

Context {T : Type} {ST : Scalar T}.

(** [std::sqrt], and [operator<<] of a [std::ostream] on [S]. *)
Variable sqrt : T -> T.
Variable show : T -> string.

Local Open Scope outcome_scope.

(** [vVector<S> rtn (count)]: [count] value-initialised elements. *)
Definition sized (count : nat) : list T := repeat (lit 0) count.

Definition x (this : list T) : outcome T := subscript this 0.
Definition y (this : list T) : outcome T := subscript this 1.
Definition z (this : list T) : outcome T := subscript this 2.
Definition w (this : list T) : outcome T := subscript this 3.

(** [set_from (const std::vector<_S>& vec)] *)
Definition set_from_vector (vec this : list T) : outcome (list T) :=
  std_copy vec 0 this.

(** [set_from (const std::array<_S, N>& ar)] *)
Definition set_from_array (ar this : list T) : outcome (list T) :=
  let this := resize (List.length ar) (lit 0) this in
  std_copy ar 0 this.

(** The loop [for (size_t i = 0; i < this->size(); ++i)] that assigns
    [v[i]] to the element [i] of this vector, for the [count] indices from
    [i]. *)
Fixpoint assign_each (count i : nat) (v this : list T) : outcome (list T) :=
  match count with
  | O => Ret this
  | S count' =>
      e <- subscript v i ;;
      this' <- of_option (store i e this) ;;
      assign_each count' (S i) v this'
  end.

(** [set_from_onelonger (v)], the same body in its three overloads. *)
Definition set_from_onelonger (v this : list T) : outcome (list T) :=
  if (List.length v =? List.length this + 1)%nat
  then assign_each (List.length this) 0 v this
  else Ret this.

(** The loop of [str()]: [ss] is the stream so far. *)
Fixpoint str_each (this : list T) (first : bool) (ss : string) : string :=
  match this with
  | [] => ss
  | i :: rest =>
      if first then str_each rest false (ss ++ show i)
      else str_each rest false (ss ++ "," ++ show i)
  end.

(** [str()] *)
Definition str (this : list T) : string :=
  let ss := "("%string in
  let ss := str_each this true ss in
  (ss ++ ")")%string.

Definition add_squared (a b : T) : T := add a (mul b b).

(** [renormalize()] *)
Definition renormalize (this : list T) : outcome (list T) :=
  denom <- std_accumulate (fun _ a b => Ret (add_squared a b)) this 0 (lit 0) ;;
  let denom := sqrt denom in
  if negb (eqb denom (lit 0)) then
    let oneovermag := div (lit 1) denom in
    std_transform (fun _ f => Ret (mul f oneovermag)) this 0 this
  else Ret this.

(** [length()] *)
Definition length (this : list T) : outcome T :=
  len <- std_accumulate (fun _ a b => Ret (add_squared a b)) this 0 (lit 0) ;;
  Ret (sqrt len).

(** [operator-()] *)
Definition operator_negate (this : list T) : outcome (list T) :=
  let rtn := sized (List.length this) in
  std_transform (fun _ e => Ret (neg e)) this 0 rtn.

(** [operator!()] *)
Definition operator_not (this : list T) : outcome bool :=
  len <- length this ;;
  Ret (if eqb len (lit 0) then true else false).

(** The three components that both cross products compute. *)
Definition cross_components (this v : list T) : outcome (T * T * T) :=
  t0 <- subscript this 0 ;; t1 <- subscript this 1 ;; t2 <- subscript this 2 ;;
  vx <- x v ;; vy <- y v ;; vz <- z v ;;
  Ret (sub (mul t1 vz) (mul t2 vy),
       sub (mul t2 vx) (mul t0 vz),
       sub (mul t0 vy) (mul t1 vx)).

(** [operator* (const vVector<_S>& v)], the cross product. *)
Definition operator_times (this v : list T) : outcome (list T) :=
  let vrtn := [] in
  if (List.length this =? 3)%nat && (List.length v =? 3)%nat then
    let vrtn := resize 3 (lit 0) vrtn in
    r <- cross_components this v ;;
    vrtn <- of_option (store 0 (fst (fst r)) vrtn) ;;
    vrtn <- of_option (store 1 (snd (fst r)) vrtn) ;;
    vrtn <- of_option (store 2 (snd r) vrtn) ;;
    Ret vrtn
  else Ret vrtn.

(** [operator*= (const vVector<_S>& v)] *)
Definition operator_times_assign (this v : list T) : outcome (list T) :=
  if (List.length this =? 3)%nat && (List.length v =? 3)%nat then
    let vtmp := repeat (lit 0) 3 in
    r <- cross_components this v ;;
    vtmp <- of_option (store 0 (fst (fst r)) vtmp) ;;
    vtmp <- of_option (store 1 (snd (fst r)) vtmp) ;;
    vtmp <- of_option (store 2 (snd r) vtmp) ;;
    std_copy vtmp 0 this
  else Ret this.

(** The lambdas that capture [vi = v.begin()] and read [*vi++]. *)
Definition with_next (f : T -> T -> T) (v : list T) (j : nat) (a : T) : outcome T :=
  e <- subscript v j ;; Ret (f a e).

(** [dot (v)] *)
Definition dot (this v : list T) : outcome T :=
  std_accumulate (fun j a b => e <- subscript v j ;; Ret (add a (mul b e))) this 0 (lit 0).

(** [hadamard (v)] *)
Definition hadamard (this v : list T) : outcome (list T) :=
  let rtn := repeat (lit 0) (List.length v) in
  std_transform (with_next mul v) this 0 rtn.

(** [operator* (const _S& s)] and [operator*= (const _S& s)] *)
Definition operator_times_scalar (this : list T) (s : T) : outcome (list T) :=
  let rtn := sized (List.length this) in
  std_transform (fun _ coord => Ret (mul coord s)) this 0 rtn.
Definition operator_times_assign_scalar (this : list T) (s : T) : outcome (list T) :=
  std_transform (fun _ coord => Ret (mul coord s)) this 0 this.

(** [operator/ (const _S& s)] and [operator/= (const _S& s)] *)
Definition operator_divide_scalar (this : list T) (s : T) : outcome (list T) :=
  let rtn := sized (List.length this) in
  std_transform (fun _ coord => Ret (div coord s)) this 0 rtn.
Definition operator_divide_assign_scalar (this : list T) (s : T) : outcome (list T) :=
  std_transform (fun _ coord => Ret (div coord s)) this 0 this.

(** [operator+ (const vVector<_S>& v)] and [operator+= (const vVector<S>& v)] *)
Definition operator_plus (this v : list T) : outcome (list T) :=
  let vrtn := sized (List.length this) in
  std_transform (with_next add v) this 0 vrtn.
Definition operator_plus_assign (this v : list T) : outcome (list T) :=
  std_transform (with_next add v) this 0 this.

(** [operator- (const vVector<_S>& v)] and [operator-= (const vVector<_S>& v)] *)
Definition operator_minus (this v : list T) : outcome (list T) :=
  let vrtn := sized (List.length this) in
  std_transform (with_next sub v) this 0 vrtn.
Definition operator_minus_assign (this v : list T) : outcome (list T) :=
  std_transform (with_next sub v) this 0 this.

(** [operator+ (const _S& s)] and [operator+= (const _S& s)] *)
Definition operator_plus_scalar (this : list T) (s : T) : outcome (list T) :=
  let rtn := sized (List.length this) in
  std_transform (fun _ coord => Ret (add coord s)) this 0 rtn.
Definition operator_plus_assign_scalar (this : list T) (s : T) : outcome (list T) :=
  std_transform (fun _ coord => Ret (add coord s)) this 0 this.

(** [operator- (const _S& s)]: [rtn] is declared without a size. *)
Definition operator_minus_scalar (this : list T) (s : T) : outcome (list T) :=
  let rtn := [] in
  std_transform (fun _ coord => Ret (sub coord s)) this 0 rtn.

(** [operator-= (const _S& s)] *)
Definition operator_minus_assign_scalar (this : list T) (s : T) : outcome (list T) :=
  std_transform (fun _ coord => Ret (sub coord s)) this 0 this.

End Members.

End vVector.

(** ** [morph::Vector<Flt, N>], member by member *)

(** A loop [for (size_t i = 0; i < N; ++i) { ... }] on a state [s], for the
    [count] indices from [i]. *)
Fixpoint for_index {St : Type} (count i : nat) (body : nat -> St -> outcome St)
  (s : St) : outcome St :=
  match count with
  | O => Ret s
  | S count' => obind (body i s) (fun s' => for_index count' (S i) body s')
  end.

(** [morph::Vector<Flt, N>] derives from [std::array<Flt, N>]: a list of [N]
    components.  The members are those of [morph/Vector.h], written with
    iterators and with indices up to [N] as the header writes them. *)
Module Vector.

Section Members.

Context {T : Type} {ST : Scalar T}.

(** The template parameter [N]; [std::sqrt]; [operator<<] of a stream on
    [Flt]. *)
Variable N : nat.
Variable sqrt : T -> T.
Variable show : T -> string.

(** A local [Vector<Flt, N>] that has been declared and not assigned to:
    its components are indeterminate. *)
Variable fresh : list T.

Local Open Scope outcome_scope.

(** [std::array::at] *)
Definition at_ (this : list T) (pos : nat) : outcome T :=
  match nth_error this pos with
  | Some e => Ret e
  | None => Throw "std::out_of_range"
  end.

Definition x (this : list T) : outcome T := at_ this 0.
Definition y (this : list T) : outcome T := at_ this 1.
Definition z (this : list T) : outcome T := at_ this 2.
Definition w (this : list T) : outcome T := at_ this 3.

(** The loop of [asString()]: [ss] is the stream so far. *)
Fixpoint asString_each (this : list T) (first : bool) (ss : string) : string :=
  match this with
  | [] => ss
  | i :: rest =>
      if first then asString_each rest false (ss ++ show i)
      else asString_each rest false (ss ++ "," ++ show i)
  end.

(** [asString()] *)
Definition asString (this : list T) : string :=
  let ss := "("%string in
  let ss := asString_each this true ss in
  (ss ++ ")")%string.

(** The sum of the squares of the components, from zero and first to last:
    the loops of [renormalize()] and [length()]. *)
Definition sum_of_squares (this : list T) : outcome T :=
  std_accumulate (fun _ sos i => Ret (add sos (mul i i))) this 0 (lit 0).

(** [renormalize()] *)
Definition renormalize (this : list T) : outcome (list T) :=
  denom <- sum_of_squares this ;;
  let denom := sqrt denom in
  if negb (eqb denom (lit 0)) then
    let oneovermag := div (lit 1) denom in
    std_transform (fun _ e => Ret (mul e oneovermag)) this 0 this
  else Ret this.

(** [length()] *)
Definition length (this : list T) : outcome T :=
  sos <- sum_of_squares this ;;
  Ret (sqrt sos).

(** [operator-()] *)
Definition operator_negate (this : list T) : outcome (list T) :=
  let rtn := fresh in
  std_transform (fun _ e => Ret (neg e)) this 0 rtn.

(** [operator!()] *)
Definition operator_not (this : list T) : outcome bool :=
  len <- length this ;;
  Ret (if eqb len (lit 0) then true else false).

(** The assignments [v[0] = ...; v[1] = ...; v[2] = ...;] of the two cross
    products, on the local [v]. *)
Definition cross_into (this v2 v : list T) : outcome (list T) :=
  ty <- y this ;; v2z <- z v2 ;; tz <- z this ;; v2y <- y v2 ;;
  v <- of_option (store 0 (sub (mul ty v2z) (mul tz v2y)) v) ;;
  tz <- z this ;; v2x <- x v2 ;; tx <- x this ;; v2z <- z v2 ;;
  v <- of_option (store 1 (sub (mul tz v2x) (mul tx v2z)) v) ;;
  tx <- x this ;; v2y <- y v2 ;; ty <- y this ;; v2x <- x v2 ;;
  of_option (store 2 (sub (mul tx v2y) (mul ty v2x)) v).

(** [operator* (const Vector<Flt, _N>& v2)], for [N == 3]. *)
Definition operator_times (this v2 : list T) : outcome (list T) :=
  let v := fresh in
  cross_into this v2 v.

(** [operator*= (const Vector<Flt, _N>& v2)], for [N == 3]. *)
Definition operator_times_assign (this v2 : list T) : outcome (list T) :=
  let v := fresh in
  v <- cross_into this v2 v ;;
  vx <- x v ;;
  _ <- at_ this 0 ;;
  this <- of_option (store 0 vx this) ;;
  vy <- y v ;;
  _ <- at_ this 1 ;;
  this <- of_option (store 1 vy this) ;;
  vz <- z v ;;
  _ <- at_ this 2 ;;
  of_option (store 2 vz this).

(** [dot (v2)] *)
Definition dot (this v2 : list T) : outcome T :=
  std_accumulate (fun j rtn i => e <- subscript v2 j ;; Ret (add rtn (mul i e))) this 0 (lit 0).

(** The bodies of the loops over one vector: the component [i] of [val],
    through [f], is assigned to the component [i] of [rval], or of [val]
    itself. *)
Definition assign_from (f : T -> T) (val : list T) (i : nat) (rval : list T)
  : outcome (list T) :=
  e <- subscript val i ;; of_option (store i (f e) rval).
Definition assign_in_place (f : T -> T) (i : nat) (val : list T) : outcome (list T) :=
  e <- subscript val i ;; of_option (store i (f e) val).

(** The bodies of the loops over two vectors: the components [i] of [val]
    and [val2], through [f], are assigned to the component [i] of [v], or of
    [val] itself. *)
Definition assign_from2 (f : T -> T -> T) (val val2 : list T) (i : nat) (v : list T)
  : outcome (list T) :=
  a <- subscript val i ;; b <- subscript val2 i ;; of_option (store i (f a b) v).
Definition assign_in_place2 (f : T -> T -> T) (val2 : list T) (i : nat) (val : list T)
  : outcome (list T) :=
  a <- subscript val i ;; b <- subscript val2 i ;; of_option (store i (f a b) val).

(** [operator* (const S& s)] and [operator*= (const S& s)] *)
Definition operator_times_scalar (this : list T) (s : T) : outcome (list T) :=
  let rtn := fresh in
  for_index N 0 (assign_from (fun e => mul e s) this) rtn.
Definition operator_times_assign_scalar (this : list T) (s : T) : outcome (list T) :=
  for_index N 0 (assign_in_place (fun e => mul e s)) this.

(** [operator/ (const S& s)] and [operator/= (const S& s)] *)
Definition operator_divide_scalar (this : list T) (s : T) : outcome (list T) :=
  let rtn := fresh in
  for_index N 0 (assign_from (fun e => div e s) this) rtn.
Definition operator_divide_assign_scalar (this : list T) (s : T) : outcome (list T) :=
  for_index N 0 (assign_in_place (fun e => div e s)) this.

(** [operator+ (const Vector<Flt, N>& v2)] and [operator+=] *)
Definition operator_plus (this v2 : list T) : outcome (list T) :=
  let v := fresh in
  for_index N 0 (assign_from2 add this v2) v.
Definition operator_plus_assign (this v2 : list T) : outcome (list T) :=
  for_index N 0 (assign_in_place2 add v2) this.

(** [operator- (const Vector<Flt, N>& v2)] and [operator-=] *)
Definition operator_minus (this v2 : list T) : outcome (list T) :=
  let v := fresh in
  for_index N 0 (assign_from2 sub this v2) v.
Definition operator_minus_assign (this v2 : list T) : outcome (list T) :=
  for_index N 0 (assign_in_place2 sub v2) this.

(** [operator+ (const S& s)] and [operator+= (const S& s)] *)
Definition operator_plus_scalar (this : list T) (s : T) : outcome (list T) :=
  let rtn := fresh in
  for_index N 0 (assign_from (fun e => add e s) this) rtn.
Definition operator_plus_assign_scalar (this : list T) (s : T) : outcome (list T) :=
  for_index N 0 (assign_in_place (fun e => add e s)) this.

(** [operator- (const S& s)] and [operator-= (const S& s)] *)
Definition operator_minus_scalar (this : list T) (s : T) : outcome (list T) :=
  let rtn := fresh in
  for_index N 0 (assign_from (fun e => sub e s) this) rtn.
Definition operator_minus_assign_scalar (this : list T) (s : T) : outcome (list T) :=
  for_index N 0 (assign_in_place (fun e => sub e s)) this.

End Members.

End Vector.

(** ** The learning step of [examples/neuralnet/nn4.cpp] *)

(** What the loops of [main] do to the weights [c.w] of one connection and
    to its entry [mean_gradients[i].first], given the gradients [c.nabla_w]
    that [ff1.backprop()] leaves for the members of a mini-batch.
    [mean_gradients] is declared as pairs of [morph::vVector<float>] and
    initialised from [c.nabla_w] and [c.nabla_b]; the weights and the
    gradients of a connection are [vVector]s as well, so that each operator
    below is the one of [morph/vVector.h].  The biases [c.b] go through the
    same three loops with [.second]. *)
Module nn4.

Section Main.

Context {T : Type} {ST : Scalar T}.

Local Open Scope outcome_scope.

(** [mean_gradients[i].first += c.nabla_w], once for each member of the
    mini-batch: [nablas] holds the gradient of each pass of the loop over
    [mb], in order. *)
Fixpoint collect (nablas : list (list T)) (mean_gradient : list T)
  : outcome (list T) :=
  match nablas with
  | [] => Ret mean_gradient
  | nabla_w :: rest =>
      mean_gradient <- vVector.operator_plus_assign mean_gradient nabla_w ;;
      collect rest mean_gradient
  end.

(** "Zero mean grads", the accumulation, and the division "to get the
    means". *)
Definition mean_of (nablas : list (list T)) (mini_batch_size : N)
  (mean_gradient : list T) : outcome (list T) :=
  let mean_gradient := vzero mean_gradient in
  mean_gradient <- collect nablas mean_gradient ;;
  vVector.operator_divide_assign_scalar mean_gradient (of_uint mini_batch_size).

(** "Gradient update. v -> v' = v - eta * gradC":
    [c.w -= (mean_gradients[i].first * eta)]. *)
Definition gradient_update (w mean_gradient : list T) (eta : T) : outcome (list T) :=
  scaled <- vVector.operator_times_scalar mean_gradient eta ;;
  vVector.operator_minus_assign w scaled.

End Main.

End nn4.

(** ** The grating: the borders that a line crosses *)

(** [enum class border_id] *)
Module border_id.

Inductive t : Type :=
| top
| bottom
| left
| right
| unknown.

Definition eqb (p q : t) : bool :=
  match p, q with
  | top, top | bottom, bottom | left, left | right, right | unknown, unknown => true
  | _, _ => false
  end.

End border_id.

(** [border_id_str] *)
Definition border_id_str (id : border_id.t) : string :=
  let rtn := "unknown"%string in
  if border_id.eqb id border_id.top then "top"%string
  else if border_id.eqb id border_id.bottom then "bottom"%string
  else if border_id.eqb id border_id.left then "left"%string
  else if border_id.eqb id border_id.right then "right"%string
  else rtn.

(** [std::bitset<2>], bit 0 first, and its [test]. *)
Module bitset.

Definition t : Type := (bool * bool)%type.

Definition test (b : t) (pos : nat) : bool :=
  match pos with
  | O => fst b
  | _ => snd b
  end.

End bitset.

Module GratingVisual.

(** The two points that [find_border_points] looks for, with the borders
    they are on: its four reference parameters. *)
Record border_points (P : Type) : Type := {
  fp : P;
  fq : P;
  fp_id : border_id.t;
  fq_id : border_id.t
}.

Arguments Build_border_points {P}.
Arguments fp {P} _.
Arguments fq {P} _.
Arguments fp_id {P} _.
Arguments fq_id {P} _.

(** What [draw_fill_in_shape] hands to [vertex_push], in the order of the
    calls: three vertices for a triangle, four for a quadrilateral. *)
Inductive shape (P : Type) : Type :=
| triangle (v0 v1 v2 : P)
| quadrilateral (v0 v1 v2 v3 : P).

Arguments triangle {P} v0 v1 v2.
Arguments quadrilateral {P} v0 v1 v2 v3.

(** [vec<float, 2>] with the members that the lambdas call, and
    [MathAlgo::crossing_point] ([morph/vec.h] and [morph/MathAlgo.h] are not
    part of the sources at hand): the two-component initialiser,
    [operator-], [length()], [operator==], and the point where two lines
    cross. *)
Class Vec2 (T P : Type) : Type := {
  vec2 : T -> T -> P;
  vec_minus : P -> P -> P;
  vec_length : P -> T;
  vec_eqb : P -> P -> bool;
  crossing_point : P -> P -> P -> P -> P
}.

(** The corners of the rectangle, as [initializeVertices] has computed them
    when it makes the lambdas. *)
Record corners (P : Type) : Type := {
  top_left : P;
  bot_left : P;
  top_right : P;
  bot_right : P
}.

Arguments top_left {P} _.
Arguments bot_left {P} _.
Arguments top_right {P} _.
Arguments bot_right {P} _.

Section Lambdas.

Context {T : Type} {ST : Scalar T} {P : Type} {VP : Vec2 T P}.

(** The captures of the lambdas. *)
Variable rc : corners P.

(** "Line segments of the borders", each [pq]. *)
Definition bot_p : P := bot_left rc.
Definition bot_q : P := bot_right rc.
Definition top_p : P := top_left rc.
Definition top_q : P := top_right rc.
Definition left_p : P := bot_left rc.
Definition left_q : P := top_left rc.
Definition right_p : P := bot_right rc.
Definition right_q : P := top_right rc.

(** "How close do intersection points need to be to be considered to be the
    same?" *)
Definition thresh : T := mul (lit 10) epsilon.

(** [(fp-fq).length() < thresh] *)
Definition coincide (r : border_points P) : bool :=
  ltb (vec_length (vec_minus (fp r) (fq r))) thresh.

(** The assignments [fp = ...; fp_id = ...;] and [fq = ...; fq_id = ...;]. *)
Definition set_fp (pt : P) (id : border_id.t) (r : border_points P) : border_points P :=
  {| fp := pt; fq := fq r; fp_id := id; fq_id := fq_id r |}.
Definition set_fq (pt : P) (id : border_id.t) (r : border_points P) : border_points P :=
  {| fp := fp r; fq := pt; fp_id := fp_id r; fq_id := id |}.

(** The lambda [find_border_points] of [initializeVertices]. *)
Definition find_border_points (_p _q : P) (r : border_points P)
  (_bi _ti _li _ri : bitset.t) : outcome (border_points P) :=
  if bitset.test _bi 0 then
    let r := set_fp (crossing_point _p _q bot_p bot_q) border_id.bottom r in
    if bitset.test _ti 0 then
      Ret (set_fq (crossing_point _p _q top_p top_q) border_id.top r)
    else if bitset.test _li 0 then
      let r := set_fq (crossing_point _p _q left_p left_q) border_id.left r in
      if bitset.test _ti 0 then
        if coincide r
        then Ret (set_fq (crossing_point _p _q top_p top_q) border_id.top r)
        else Ret r
      else if bitset.test _ri 0 then
        if coincide r
        then Ret (set_fq (crossing_point _p _q right_p right_q) border_id.right r)
        else Ret r
      else Ret r
    else if bitset.test _ri 0 then
      let r := set_fq (crossing_point _p _q right_p right_q) border_id.right r in
      if bitset.test _ti 0 then
        if coincide r
        then Ret (set_fq (crossing_point _p _q top_p top_q) border_id.top r)
        else Ret r
      else Ret r
    else Throw "unexpected1"
  else if bitset.test _ti 0 then
    let r := set_fp (crossing_point _p _q top_p top_q) border_id.top r in
    if bitset.test _li 0 then
      let r := set_fq (crossing_point _p _q left_p left_q) border_id.left r in
      if bitset.test _bi 0 then
        if coincide r
        then Ret (set_fq (crossing_point _p _q bot_p bot_q) border_id.bottom r)
        else Ret r
      else if bitset.test _ri 0 then
        if coincide r
        then Ret (set_fq (crossing_point _p _q right_p right_q) border_id.right r)
        else Ret r
      else Ret r
    else if bitset.test _ri 0 then
      let r := set_fq (crossing_point _p _q right_p right_q) border_id.right r in
      if bitset.test _bi 0 then
        if coincide r
        then Ret (set_fq (crossing_point _p _q bot_p bot_q) border_id.bottom r)
        else Ret r
      else if bitset.test _li 0 then
        if coincide r
        then Ret (set_fq (crossing_point _p _q left_p left_q) border_id.left r)
        else Ret r
      else Ret r
    else Throw "unexpected2"
  else if bitset.test _li 0 then
    let r := set_fp (crossing_point _p _q left_p left_q) border_id.left r in
    if bitset.test _ri 0 then
      Ret (set_fq (crossing_point _p _q right_p right_q) border_id.right r)
    else Throw "unexpected3"
  else if bitset.test _ri 0 then Throw "We have ri first (unexpected?)"
  else Ret r.

(** [fp_id == a && fq_id == b || fq_id == a && fp_id == b] *)
Definition between (a b fp_id fq_id : border_id.t) : bool :=
  (border_id.eqb fp_id a && border_id.eqb fq_id b)
  || (border_id.eqb fq_id a && border_id.eqb fp_id b).

(** The first part of the lambda [draw_fill_in_shape]: [corner] and
    [corner_2] for the borders of the two points. *)
Definition fill_in_corners (_p : P) (fp_id fq_id : border_id.t) : outcome (P * P) :=
  let corner := vec2 (lit 0) (lit 0) in
  let corner_2 := vec2 (lit (-100)) (lit (-100)) in
  if between border_id.left border_id.top fp_id fq_id then
    Ret (top_left rc, corner_2)
  else if between border_id.left border_id.bottom fp_id fq_id then
    Ret (bot_left rc, corner_2)
  else if between border_id.right border_id.bottom fp_id fq_id then
    Ret (bot_right rc, corner_2)
  else if between border_id.right border_id.top fp_id fq_id then
    Ret (top_right rc, corner_2)
  else if between border_id.bottom border_id.top fp_id fq_id then
    let d_to_left := vec_length (vec_minus _p (bot_left rc)) in
    let d_to_right := vec_length (vec_minus _p (bot_right rc)) in
    Ret (if ltb d_to_left d_to_right then bot_left rc else bot_right rc,
         if ltb d_to_left d_to_right then top_left rc else top_right rc)
  else if between border_id.left border_id.right fp_id fq_id then
    let d_to_top := vec_length (vec_minus _p (top_left rc)) in
    let d_to_bottom := vec_length (vec_minus _p (bot_left rc)) in
    Ret (if ltb d_to_top d_to_bottom then top_left rc else bot_left rc,
         if ltb d_to_top d_to_bottom then top_right rc else bot_right rc)
  else Throw "unexpected corner".

(** The lambda [draw_fill_in_shape], up to the vertices it pushes: a
    triangle when [corner_2] is as it was initialised, a quadrilateral
    otherwise. *)
Definition draw_fill_in_shape (_p fp fq : P) (fp_id fq_id : border_id.t)
  : outcome (shape P) :=
  obind (fill_in_corners _p fp_id fq_id) (fun c =>
  let corner := fst c in
  let corner_2 := snd c in
  if vec_eqb corner_2 (vec2 (lit (-100)) (lit (-100)))
  then Ret (triangle fp fq corner)
  else Ret (quadrilateral fp corner fq corner_2)).

(** *** Descriptions *)

(** The segment of a border, and whether the line crosses it. *)
Definition border_segment (id : border_id.t) : P * P :=
  match id with
  | border_id.bottom => (bot_p, bot_q)
  | border_id.top => (top_p, top_q)
  | border_id.left => (left_p, left_q)
  | _ => (right_p, right_q)
  end.

Definition crossed (_bi _ti _li _ri : bitset.t) (id : border_id.t) : bool :=
  match id with
  | border_id.bottom => bitset.test _bi 0
  | border_id.top => bitset.test _ti 0
  | border_id.left => bitset.test _li 0
  | border_id.right => bitset.test _ri 0
  | border_id.unknown => false
  end.

(** The number of borders that the line crosses. *)
Definition crossings (_bi _ti _li _ri : bitset.t) : nat :=
  List.length (filter (crossed _bi _ti _li _ri)
                 [border_id.bottom; border_id.top; border_id.left; border_id.right]).

(** Two borders that meet in a corner. *)
Definition adjacent (a b : border_id.t) : bool :=
  between border_id.left border_id.top a b
  || between border_id.left border_id.bottom a b
  || between border_id.right border_id.bottom a b
  || between border_id.right border_id.top a b.

End Lambdas.

End GratingVisual.

(** ** Closed computations on the grating *)

(** Points with two [double] coordinates.  [crossing_point] stands in for
    the function of [MathAlgo]: the point where the line through [p1] and
    [q1] crosses the line through [p2] and [q2], by Cramer's rule. *)
Module Plane.

Local Open Scope float_scope.

Definition minus (a b : float * float) : float * float :=
  (fst a - fst b, snd a - snd b).

Definition norm (a : float * float) : float :=
  sqrt (fst a * fst a + snd a * snd a).

Definition equal (a b : float * float) : bool :=
  (fst a =? fst b) && (snd a =? snd b).

Definition det (a b : float * float) : float := fst a * snd b - snd a * fst b.

Definition crossing (p1 q1 p2 q2 : float * float) : float * float :=
  let d1 := minus q1 p1 in
  let d2 := minus q2 p2 in
  let t := det (minus p2 p1) d2 / det d1 d2 in
  (fst p1 + t * fst d1, snd p1 + t * snd d1).

#[global] Instance plane : GratingVisual.Vec2 float (float * float) := {|
  GratingVisual.vec2 := fun a b => (a, b);
  GratingVisual.vec_minus := minus;
  GratingVisual.vec_length := norm;
  GratingVisual.vec_eqb := equal;
  GratingVisual.crossing_point := crossing
|}.

(** A rectangle two wide and one high, and the vertical line through its
    middle, which crosses the bottom and the top. *)
Definition rectangle : GratingVisual.corners (float * float) := {|
  GratingVisual.top_left := (0, 1);
  GratingVisual.bot_left := (0, 0);
  GratingVisual.top_right := (2, 1);
  GratingVisual.bot_right := (2, 0)
|}.

Definition nowhere : GratingVisual.border_points (float * float) := {|
  GratingVisual.fp := (0, 0);
  GratingVisual.fq := (0, 0);
  GratingVisual.fp_id := border_id.unknown;
  GratingVisual.fq_id := border_id.unknown
|}.

Definition found : GratingVisual.border_points (float * float) :=
  match
    GratingVisual.find_border_points rectangle (1, 2) (1, -1) nowhere
      (true, false) (true, false) (false, false) (false, false)
  with
  | Ret r => r
  | _ => nowhere
  end.

End Plane.

(** * Properties *)

(** Splits a conjunction into its parts, and nothing else. *)
Ltac conjs := repeat match goal with |- _ /\ _ => split end.

(** ** Outcomes and [unsigned int] *)

Lemma obind_Ret {A B} (o : outcome A) (f : A -> outcome B) (r : B) :
  obind o f = Ret r -> exists v, o = Ret v /\ f v = Ret r.
Proof. destruct o; simpl; try discriminate. intros H. eauto. Qed.

Lemma bind_Ret {A B} (mA : M A) (f : A -> M B) p (r : B * nat) :
  bind mA f p = Ret r -> exists v p1, mA p = Ret (v, p1) /\ f v p1 = Ret r.
Proof.
  unfold bind. intros H. apply obind_Ret in H as ([v p1] & H1 & H2). eauto.
Qed.

Lemma lift_Ret {A} (o : outcome A) p (v : A) p' :
  lift o p = Ret (v, p') -> o = Ret v /\ p' = p.
Proof.
  unfold lift. intros H. apply obind_Ret in H as (w & H1 & H2).
  injection H2 as <- <-. auto.
Qed.

Lemma ret_Ret {A} (v w : A) p p' : ret v p = Ret (w, p') -> w = v /\ p' = p.
Proof. unfold ret. intros H. injection H as <- <-. auto. Qed.

Lemma of_option_Ret {A} (o : option A) (v : A) : of_option o = Ret v -> o = Some v.
Proof. destruct o; simpl; intros H; now inversion H. Qed.

Lemma UINT_MODULUS_pos : 0 < UINT_MODULUS.
Proof. reflexivity. Qed.

Lemma wrap_lt v : wrap v < UINT_MODULUS.
Proof. unfold wrap. apply N.mod_lt. discriminate. Qed.

Lemma wrap_small v : v < UINT_MODULUS -> wrap v = v.
Proof. unfold wrap. apply N.mod_small. Qed.

Lemma wrap_add_l v w : wrap (wrap v + w) = wrap (v + w).
Proof. unfold wrap. apply N.Div0.add_mod_idemp_l. Qed.

Lemma wrap_add_r v w : wrap (v + wrap w) = wrap (v + w).
Proof. unfold wrap. apply N.Div0.add_mod_idemp_r. Qed.

(** ** Vectors *)

Section VectorFacts.

Context {T : Type} {ST : Scalar T}.

Lemma all2_Forall2 (f : T -> T -> bool) v w :
  all2 f v w = true -> Forall2 (fun e e' => f e e' = true) v w.
Proof.
  revert w. induction v as [|e v IH]; intros [|e' w]; simpl; try discriminate.
  - constructor.
  - intros H. apply andb_true_iff in H as [H1 H2]. constructor; auto.
Qed.



Lemma store_Some {A} i (e : A) v v' :
  store i e v = Some v' ->
  (i < length v)%nat /\ v' = firstn i v ++ e :: skipn (S i) v.
Proof.
  unfold store. destruct (Nat.ltb_spec i (length v)) as [Hlt|Hge]; intros H; inversion H. auto.
Qed.

Lemma store_length {A} {i} {e : A} {v v'} :
  store i e v = Some v' -> length v' = length v.
Proof.
  intros H. apply store_Some in H as [Hi ->].
  rewrite length_app, length_firstn. cbn [length]. rewrite length_skipn. lia.
Qed.

Lemma resize_length {A} count (e : A) v : length (resize count e v) = count.
Proof.
  unfold resize. rewrite length_app, length_firstn, repeat_length. lia.
Qed.




End VectorFacts.

(** ** Completing a reanneal *)

Section ReannealFacts.

Context {T : Type} {ST : Scalar T}.

(** An annealer is its fields. *)
Lemma set_partials_eta (a : Anneal T) : a <| partials := partials a |> = a.
Proof. destruct a; reflexivity. Qed.

(** The loop of difference quotients writes [partials] and nothing else. *)
Lemma sum_partials_frame count : forall i (a b : Anneal T),
  sum_partials count i a = Ret b -> b = a <| partials := partials b |>.
Proof.
  induction count as [|count IH]; intros i a b; simpl.
  - intros [= <-]. symmetry. apply set_partials_eta.
  - intros H.
    apply obind_Ret in H as (fi & _ & H).
    apply obind_Ret in H as (xi & _ & H).
    apply IH in H. rewrite H. reflexivity.
Qed.

Lemma estimate_partials_frame (a b : Anneal T) :
  estimate_partials a = Ret b -> b = a <| partials := partials b |>.
Proof.
  unfold estimate_partials. intros H.
  apply obind_Ret in H as (a1 & H1 & H2).
  apply sum_partials_frame in H1. injection H2 as <-.
  rewrite H1. reflexivity.
Qed.




(** What [complete_reanneal] does after the estimate, case by case. *)
Lemma complete_reanneal_unfold (a b : Anneal T) :
  estimate_partials a = Ret b ->
  complete_reanneal a =
    if has_nan_or_inf (partials b) then Throw "NaN or inf in partials"
    else if has_zero (partials b) then Ret (reset_stats b)
    else if vgt_s (rescaled_temp (sensitivities b)) (lit 0) then
      obind (of_option (k_re_of (sensitivities b) (rescaled_temp (sensitivities b))))
        (fun k_re =>
           Ret (reset_stats ((sensitivities b) <| k := k_re |>
                               <| temp := rescaled_temp (sensitivities b) |>)))
    else Ret (reset_stats (sensitivities b)).
Proof. unfold complete_reanneal. intros ->. reflexivity. Qed.

(** [f_x_best_repeats] is the same before and after [complete_reanneal]. *)
Lemma complete_reanneal_f_x_best_repeats (a a' : Anneal T) :
  complete_reanneal a = Ret a' -> f_x_best_repeats a' = f_x_best_repeats a.
Proof.
  intros H. destruct (estimate_partials a) as [b| | |] eqn:E;
    try (unfold complete_reanneal in H; rewrite E in H; discriminate).
  rewrite (complete_reanneal_unfold _ _ E) in H.
  apply estimate_partials_frame in E.
  assert (Hb : f_x_best_repeats b = f_x_best_repeats a) by (rewrite E; reflexivity).
  destruct (has_nan_or_inf (partials b)); try discriminate.
  destruct (has_zero (partials b)).
  { injection H as <-. exact Hb. }
  destruct (vgt_s _ _).
  - apply obind_Ret in H as (kre & _ & H). injection H as <-. exact Hb.
  - injection H as <-. exact Hb.
Qed.

(** The members that [complete_reanneal] leaves as they are. *)
Lemma complete_reanneal_frame (a a' : Anneal T) :
  complete_reanneal a = Ret a' ->
  exists vp vs vk vt,
    a' = reset_stats (a <| partials := vp |> <| s := vs |> <| k := vk |> <| temp := vt |>).
Proof.
  intros H. destruct (estimate_partials a) as [b| | |] eqn:E;
    try (unfold complete_reanneal in H; rewrite E in H; discriminate).
  rewrite (complete_reanneal_unfold _ _ E) in H.
  apply estimate_partials_frame in E.
  destruct (has_nan_or_inf (partials b)); try discriminate.
  destruct (has_zero (partials b)).
  { injection H as <-. exists (partials b), (s a), (k a), (temp a).
    rewrite E. destruct a; reflexivity. }
  destruct (vgt_s _ _).
  - apply obind_Ret in H as (kre & _ & H). injection H as <-.
    exists (partials b), (s (sensitivities b)), kre, (rescaled_temp (sensitivities b)).
    rewrite E. destruct a; reflexivity.
  - injection H as <-.
    exists (partials b), (s (sensitivities b)), (k a), (temp a).
    rewrite E. destruct a; reflexivity.
Qed.

End ReannealFacts.

(** ** Acceptance *)

Section AcceptanceFacts.

Context {T : Type} {ST : Scalar T}.

Lemma with_counts_eta (a : Anneal T) :
  with_counts (num_improved a) (num_worse a) (num_worse_accepted a) a = a.
Proof. destruct a; reflexivity. Qed.

Lemma incr_sum_l v w : wrap (incr v + w) = wrap (v + w + 1).
Proof.
  unfold incr. rewrite wrap_add_l. f_equal. lia.
Qed.

Lemma incr_sum_r v w : wrap (v + incr w) = wrap (v + w + 1).
Proof.
  unfold incr. rewrite wrap_add_r. f_equal. lia.
Qed.

(** [acceptance_check] draws once, counts the candidate as improved or worse,
    and then either takes it ([accept_candidate]) or leaves the rest as it
    is. *)
Lemma acceptance_check_Ret draws (a r : Anneal T) p p' :
  acceptance_check draws a p = Ret (r, p') ->
  p' = S p /\
  exists ni nw nwa,
    wrap (ni + nw) = wrap (num_improved a + num_worse a + 1)
    /\ ((gtb (acceptance_p a) (draws p) = true
         /\ r = accept_candidate (with_counts ni nw nwa a))
        \/ (gtb (acceptance_p a) (draws p) = false
            /\ r = with_counts ni nw nwa a)).
Proof.
  unfold acceptance_check. cbv zeta. unfold bind, rng_get, ret. cbn [obind fst snd].
  intros H. injection H as <- <-. split; [reflexivity|].
  destruct (candidate_is_better a) eqn:Eb;
    repeat match goal with
    | |- context [acceptance_p (?f ?v a)] =>
        change (acceptance_p (f v a)) with (acceptance_p a)
    end;
    destruct (gtb (acceptance_p a) (draws p)) eqn:Eg; cbn [negb andb].
  - exists (incr (num_improved a)), (num_worse a), (num_worse_accepted a).
    split; [apply incr_sum_l|]. left; split; [reflexivity|].
    destruct a; reflexivity.
  - exists (incr (num_improved a)), (num_worse a), (num_worse_accepted a).
    split; [apply incr_sum_l|]. right; split; [reflexivity|].
    destruct a; reflexivity.
  - exists (num_improved a), (incr (num_worse a)), (incr (num_worse_accepted a)).
    split; [apply incr_sum_r|]. left; split; [reflexivity|].
    destruct a; reflexivity.
  - exists (num_improved a), (incr (num_worse a)), (num_worse_accepted a).
    split; [apply incr_sum_r|]. right; split; [reflexivity|].
    destruct a; reflexivity.
Qed.

(** The best value after an acceptance: the candidate's when it is less than
    the best so far, whatever [downhill] says. *)
Lemma accept_candidate_f_x_best (a : Anneal T) :
  f_x_best (accept_candidate a) =
    if ltb (f_x_cand a) (f_x_best a) then f_x_cand a else f_x_best a.
Proof.
  destruct a as [? ? ? ? ? ? ? ? ? fc ? ? ? fb ? ? ? ? ? ? ? ? ? ? ? ? ? ? ? ? ? ? ? ? ? ? ? ? ? ? ? ? ? ? ?].
  unfold accept_candidate. cbn.
  destruct (ltb fc fb) eqn:E; cbn; rewrite ?E; reflexivity.
Qed.

Lemma accept_candidate_x_best (a : Anneal T) :
  x_best (accept_candidate a) =
    if ltb (f_x_cand a) (f_x_best a) then x_cand a else x_best a.
Proof.
  destruct a as [? ? ? ? ? ? ? ? ? fc ? ? ? fb ? ? ? ? ? ? ? ? ? ? ? ? ? ? ? ? ? ? ? ? ? ? ? ? ? ? ? ? ? ? ?].
  unfold accept_candidate. cbn.
  destruct (ltb fc fb) eqn:E; cbn; rewrite ?E; reflexivity.
Qed.



End AcceptanceFacts.

(** ** Generation of parameters *)

Section GenerationFacts.

Context {T : Type} {ST : Scalar T}.

Variable draws : nat -> T.

Lemma randomize_spec len : forall p,
  randomize draws len p = Ret (map draws (seq p len), (p + len)%nat).
Proof.
  induction len as [|len IH]; intros p; simpl.
  - unfold ret. now rewrite Nat.add_0_r.
  - unfold bind at 1. unfold rng_get. cbn [obind fst snd].
    unfold bind. rewrite IH. cbn [obind fst snd]. unfold ret.
    now rewrite Nat.add_succ_r.
Qed.

(** One turn of the loop, spelled out. *)
Lemma generate_parameter_turn fuel (a : Anneal T) x_start force_change p :
  generate_parameter draws (S fuel) a x_start force_change p =
    let v := perturb a x_start (map draws (seq p (N.to_nat (D a)))) in
    if generated_flag a x_start force_change v
    then Ret (v, (p + N.to_nat (D a))%nat)
    else generate_parameter draws fuel a x_start force_change (p + N.to_nat (D a))%nat.
Proof.
  cbn [generate_parameter]. unfold bind at 1. rewrite randomize_spec.
  cbn [obind fst snd]. cbv zeta.
  destruct (generated_flag a x_start force_change _); reflexivity.
Qed.

(** The loop ends only on a point for which [generated] is true. *)
Lemma generate_parameter_flag fuel : forall (a : Anneal T) x_start force_change p v p',
  generate_parameter draws fuel a x_start force_change p = Ret (v, p') ->
  generated_flag a x_start force_change v = true.
Proof.
  induction fuel as [|fuel IH]; intros a x_start force_change p v p'.
  - discriminate.
  - rewrite generate_parameter_turn. cbv zeta.
    destruct (generated_flag a x_start force_change _) eqn:E.
    + intros H. injection H as <- <-. exact E.
    + apply IH.
Qed.

(** It neither throws nor runs into undefined behaviour. *)
Lemma generate_parameter_outcome fuel : forall (a : Anneal T) x_start force_change p,
  generate_parameter draws fuel a x_start force_change p = OutOfFuel
  \/ exists v p', generate_parameter draws fuel a x_start force_change p = Ret (v, p').
Proof.
  induction fuel as [|fuel IH]; intros a x_start force_change p.
  - left; reflexivity.
  - rewrite generate_parameter_turn. cbv zeta.
    destruct (generated_flag a x_start force_change _); [right; eauto | apply IH].
Qed.




(** A point for which [generated] is true is within the bounds. *)
Lemma generated_flag_within (a : Anneal T) x_start force_change v :
  generated_flag a x_start force_change v = true -> within a v.
Proof.
  unfold generated_flag. cbv zeta.
  destruct (vle v (range_max a) && vge v (range_min a)) eqn:E.
  2:{ destruct (Bool.eqb force_change true && has_zero (vsub v x_start)); discriminate. }
  intros _. apply andb_true_iff in E as [E1 E2]. split.
  - now apply all2_Forall2.
  - apply all2_Forall2 in E2. unfold geb in E2. exact E2.
Qed.


Lemma generate_next_Ret fuel (a a' : Anneal T) p p' :
  generate_next draws fuel a p = Ret (a', p') ->
  a' = a <| x_cand := x_cand a' |> /\ within a (x_cand a').
Proof.
  unfold generate_next. intros H.
  apply bind_Ret in H as (v & p1 & H1 & H2).
  apply ret_Ret in H2 as [-> ->].
  apply generate_parameter_flag, generated_flag_within in H1.
  split; [reflexivity | exact H1].
Qed.

(** The loop over [x_set] writes [x_set] only, and every member it writes is
    within the bounds and differs from [x] in every component. *)
Lemma fill_x_set_Ret fuel count : forall ps (a a' : Anneal T) p p',
  fill_x_set draws fuel count ps a p = Ret (a', p') ->
  (ps + count = length (x_set a))%nat ->
  Forall (within a) (firstn ps (x_set a)) ->
  a' = a <| x_set := x_set a' |> /\ Forall (within a) (x_set a')
  /\ length (x_set a') = length (x_set a).
Proof.
  induction count as [|count IH]; intros ps a a' p p'.
  - cbn [fill_x_set]. intros H Hlen Hall. apply ret_Ret in H as [-> ->].
    rewrite Nat.add_0_r in Hlen. subst ps. rewrite firstn_all in Hall.
    split; [|split]; auto. destruct a; reflexivity.
  - cbn [fill_x_set]. intros H Hlen Hall.
    apply bind_Ret in H as (v & p1 & H1 & H).
    apply bind_Ret in H as (xs & p2 & H2 & H).
    apply lift_Ret in H2 as [H2 ->]. apply of_option_Ret in H2.
    pose proof (store_length H2) as Hl.
    apply store_Some in H2 as [Hps ->].
    apply generate_parameter_flag, generated_flag_within in H1.
    apply IH in H as (Ha' & Hall' & Hlen').
    + split; [|split].
      * rewrite Ha'. reflexivity.
      * exact Hall'.
      * rewrite Hlen'. exact Hl.
    + change (S ps + count = length (firstn ps (x_set a) ++ v :: skipn (S ps) (x_set a)))%nat.
      rewrite Hl. lia.
    + change (Forall (within a)
                (firstn (S ps) (firstn ps (x_set a) ++ v :: skipn (S ps) (x_set a)))).
      rewrite firstn_app, length_firstn.
      replace (S ps - Nat.min ps (length (x_set a)))%nat with 1%nat by lia.
      rewrite firstn_firstn. replace (Nat.min (S ps) ps) with ps by lia.
      apply Forall_app. split; [exact Hall|]. cbn. constructor; [exact H1 | constructor].
Qed.

(** One turn of the loop over [x_set], spelled out. *)
Lemma fill_x_set_turn fuel count ps (a : Anneal T) p :
  fill_x_set draws fuel (S count) ps a p =
    match generate_parameter draws fuel a (x a) true p with
    | Ret (v, p1) =>
        match store ps v (x_set a) with
        | Some xs => fill_x_set draws fuel count (S ps) (a <| x_set := xs |>) p1
        | None => Undefined
        end
    | Throw w => Throw w
    | Undefined => Undefined
    | OutOfFuel => OutOfFuel
    end.
Proof.
  cbn [fill_x_set]. unfold bind at 1.
  destruct (generate_parameter draws fuel a (x a) true p) as [[v p1]| | |];
    try reflexivity.
  cbn [obind fst snd]. unfold bind, lift.
  destruct (store ps v (x_set a)); reflexivity.
Qed.

Lemma store_in_range {A} i (e : A) v :
  (i < length v)%nat -> exists v', store i e v = Some v'.
Proof.
  unfold store. intros H. destruct (Nat.ltb_spec i (length v)); [eauto | lia].
Qed.

Lemma fill_x_set_outcome fuel count : forall ps (a : Anneal T) p,
  (ps + count <= length (x_set a))%nat ->
  fill_x_set draws fuel count ps a p = OutOfFuel
  \/ exists a' p', fill_x_set draws fuel count ps a p = Ret (a', p').
Proof.
  induction count as [|count IH]; intros ps a p Hlen.
  - right. cbn. unfold ret. eauto.
  - rewrite fill_x_set_turn.
    destruct (generate_parameter_outcome fuel a (x a) true p) as [-> | (v & p1 & ->)].
    + left; reflexivity.
    + destruct (store_in_range ps v (x_set a)) as [xs Es]; [lia|].
      rewrite Es. apply IH.
      change (S ps + count <= length xs)%nat.
      rewrite (store_length Es). lia.
Qed.



(** [reanneal_test] when no reanneal is due: nothing is drawn or written. *)
Lemma reanneal_test_false fuel (a : Anneal T) p :
  no_reanneal a = true -> reanneal_test draws fuel a p = Ret ((false, a), p).
Proof. unfold reanneal_test, no_reanneal. intros ->. reflexivity. Qed.

(** [reanneal_test] when a reanneal is due, as the loop over [x_set]. *)
Lemma reanneal_test_true fuel (a : Anneal T) p :
  no_reanneal a = false ->
  reanneal_test draws fuel a p =
    bind (fill_x_set draws fuel (N.to_nat (partials_samples a)) 0
            (a <| x_set := resize (N.to_nat (partials_samples a)) [] (x_set a) |>
               <| f_x_set := resize (N.to_nat (partials_samples a)) (lit 0) (f_x_set a) |>))
         (fun a' => ret (true, a')) p.
Proof. unfold reanneal_test, no_reanneal. intros ->. reflexivity. Qed.

Lemma reanneal_test_Ret fuel (a a' : Anneal T) b p p' :
  reanneal_test draws fuel a p = Ret ((b, a'), p') ->
  (b = false /\ no_reanneal a = true /\ a' = a /\ p' = p)
  \/ (b = true /\ no_reanneal a = false
      /\ a' = a <| x_set := x_set a' |> <| f_x_set := f_x_set a' |>
      /\ Forall (within a) (x_set a')
      /\ length (x_set a') = N.to_nat (partials_samples a)
      /\ length (f_x_set a') = N.to_nat (partials_samples a)).
Proof.
  destruct (no_reanneal a) eqn:E.
  - rewrite (reanneal_test_false _ _ _ E). intros H. injection H as <- <- <-. auto.
  - rewrite (reanneal_test_true _ _ _ E). intros H.
    apply bind_Ret in H as (a1 & p1 & H1 & H2).
    apply ret_Ret in H2 as [H2 ->]. injection H2 as <- <-.
    apply fill_x_set_Ret in H1 as (Ha & Hall & Hlen).
    + right. repeat split; auto.
      * rewrite Ha. destruct a; reflexivity.
      * rewrite Hlen. apply resize_length.
      * rewrite Ha. apply resize_length.
    + change (0 + N.to_nat (partials_samples a) =
              length (resize (N.to_nat (partials_samples a)) [] (x_set a)))%nat.
      now rewrite resize_length.
    + constructor.
Qed.

Lemma reanneal_test_outcome fuel (a : Anneal T) p :
  reanneal_test draws fuel a p = OutOfFuel
  \/ exists r p', reanneal_test draws fuel a p = Ret (r, p').
Proof.
  destruct (no_reanneal a) eqn:E.
  - right. rewrite (reanneal_test_false _ _ _ E). eauto.
  - rewrite (reanneal_test_true _ _ _ E). unfold bind.
    match goal with |- context [fill_x_set draws fuel ?c ?i ?b p] =>
      destruct (fill_x_set_outcome fuel c i b p) as [-> | (a' & p' & ->)]
    end.
    + change (0 + N.to_nat (partials_samples a) <=
              length (resize (N.to_nat (partials_samples a)) [] (x_set a)))%nat.
      now rewrite resize_length.
    + left; reflexivity.
    + right. cbn. unfold ret. eauto.
Qed.


End GenerationFacts.

(** ** Construction and [init] *)

Section ConstructionFacts.

Context {T : Type} {ST : Scalar T}.

(** The loop of the constructor stays inside [range_min] and [range_max]
    exactly when the ranges left to store fit. *)
Lemma fill_ranges_fits (param_ranges : list (T * T)) : forall i rmin rmax,
  (i + length param_ranges <= length rmin)%nat ->
  length rmax = length rmin ->
  exists rmin' rmax',
    fill_ranges param_ranges i rmin rmax = Ret (rmin', rmax')
    /\ length rmin' = length rmin /\ length rmax' = length rmin.
Proof.
  induction param_ranges as [|pr rest IH]; intros i rmin rmax Hi Hl; simpl.
  - eauto.
  - simpl in Hi.
    destruct (store_in_range i (fst pr) rmin) as [rmin' E1]; [lia|].
    destruct (store_in_range i (snd pr) rmax) as [rmax' E2]; [lia|].
    rewrite E1, E2. simpl.
    pose proof (store_length E1) as L1. pose proof (store_length E2) as L2.
    destruct (IH (S i) rmin' rmax') as (r1 & r2 & E & L3 & L4); [lia | lia |].
    exists r1, r2. rewrite E. repeat split; lia.
Qed.

Lemma fill_ranges_overflows (param_ranges : list (T * T)) : forall i rmin rmax,
  (i <= length rmin)%nat ->
  (length rmin < i + length param_ranges)%nat ->
  length rmax = length rmin ->
  fill_ranges param_ranges i rmin rmax = Undefined.
Proof.
  induction param_ranges as [|pr rest IH]; intros i rmin rmax Hle Hi Hl; simpl in *.
  - lia.
  - destruct (store i (fst pr) rmin) as [rmin'|] eqn:E1; [|reflexivity].
    pose proof (store_length E1) as L1. apply store_Some in E1 as [Hlt _].
    destruct (store_in_range i (snd pr) rmax) as [rmax' E2]; [lia|].
    rewrite E2. pose proof (store_length E2) as L2. simpl.
    apply IH; lia.
Qed.





End ConstructionFacts.

(** ** One call of [step] *)

Section StepFacts.

Context {T : Type} {ST : Scalar T}.

Variable draws : nat -> T.

(** The entry of [step]: one more call counted, and the pending reanneal
    completed. *)
Lemma step_enter_Ret (a a1 : Anneal T) :
  step_enter a = Ret a1 ->
  (state a <> NeedToComputeSet /\ a1 = a <| steps := incr (steps a) |>)
  \/ (state a = NeedToComputeSet
      /\ exists b, complete_reanneal (a <| steps := incr (steps a) |>) = Ret b
                   /\ a1 = b <| state := NeedToStep |>).
Proof.
  unfold step_enter. cbv zeta.
  change (state (a <| steps := incr (steps a) |>)) with (state a).
  destruct (state a); cbn [Anneal_State_eqb];
    try (intros [= <-]; left; split; [discriminate | reflexivity]).
  intros H. apply obind_Ret in H as (b & H1 & H2). injection H2 as <-.
  right. split; [reflexivity | eauto].
Qed.

(** The members that the entry of [step] leaves as they are. *)
Lemma step_enter_frame (a a1 : Anneal T) :
  step_enter a = Ret a1 ->
  exists vst vstate vp vs vk vt vni vnw vnwa vna vkr,
    a1 = a <| steps := vst |> <| partials := vp |> <| s := vs |> <| k := vk |>
           <| temp := vt |> <| num_improved := vni |> <| num_worse := vnw |>
           <| num_worse_accepted := vnwa |> <| num_accepted := vna |>
           <| k_r := vkr |> <| state := vstate |>.
Proof.
  intros H. apply step_enter_Ret in H as [[_ ->] | [_ (b & H & ->)]].
  - exists (incr (steps a)), (state a), (partials a), (s a), (k a), (temp a),
      (num_improved a), (num_worse a), (num_worse_accepted a), (num_accepted a), (k_r a).
    destruct a; reflexivity.
  - apply complete_reanneal_frame in H as (vp & vs & vk & vt & ->).
    exists (incr (steps a)), NeedToStep, vp, vs, vk, vt, 0, 0, 0, 0, 0.
    destruct a; reflexivity.
Qed.

(** Between the stopping test and [reanneal_test]: the schedule cools, the
    candidate is accepted or not, a new candidate is generated, and [k] and
    [k_r] count one more step. *)
Lemma step_advance_Ret fuel (a1 a2 : Anneal T) p p2 :
  step_advance draws fuel a1 p = Ret (a2, p2) ->
  exists r,
    acceptance_check draws (cooling_schedule a1) p = Ret (r, S p)
    /\ within r (x_cand a2)
    /\ a2 = r <| x_cand := x_cand a2 |> <| k := incr (k r) |> <| k_r := incr (k_r r) |>.
Proof.
  unfold step_advance. cbv zeta. intros H.
  apply bind_Ret in H as (r & p1 & H1 & H).
  apply bind_Ret in H as (g & p3 & H2 & H).
  apply ret_Ret in H as [-> ->].
  pose proof (acceptance_check_Ret _ _ _ _ _ H1) as [-> _].
  apply generate_next_Ret in H2 as [Hg Hw].
  exists r. split; [exact H1 | split].
  - exact Hw.
  - rewrite Hg. reflexivity.
Qed.

(** [step], call by call. *)
Lemma step_Ret fuel (a a' : Anneal T) p p' :
  step draws fuel a p = Ret (a', p') ->
  exists a1,
    step_enter a = Ret a1
    /\ ((stop_check a1 = true /\ a' = a1 <| state := ReadyToStop |> /\ p' = p)
        \/ (stop_check a1 = false
            /\ exists a2 p2 b a3,
                 step_advance draws fuel a1 p = Ret (a2, p2)
                 /\ reanneal_test draws fuel a2 p2 = Ret ((b, a3), p')
                 /\ a' = a3 <| state := if b then NeedToComputeSet else NeedToCompute |>)).
Proof.
  unfold step. intros H.
  apply bind_Ret in H as (a1 & p1 & H1 & H).
  apply lift_Ret in H1 as [H1 ->]. exists a1. split; [exact H1|].
  destruct (stop_check a1).
  - left. apply ret_Ret in H as [-> ->]. auto.
  - right. split; [reflexivity|].
    apply bind_Ret in H as (a2 & p2 & H2 & H).
    apply bind_Ret in H as ([b a3] & p3 & H3 & H).
    exists a2, p2, b, a3. split; [exact H2|].
    cbn [fst snd] in H. destruct b; apply ret_Ret in H as [-> ->]; auto.
Qed.



(** The objective of the best point after a call: what it was, or the
    candidate's when that is less. *)
Lemma step_f_x_best fuel (a a' : Anneal T) p p' :
  step draws fuel a p = Ret (a', p') ->
  f_x_best a' = f_x_best a
  \/ (ltb (f_x_cand a) (f_x_best a) = true /\ f_x_best a' = f_x_cand a
      /\ x_best a' = x_cand a).
Proof.
  intros H. apply step_Ret in H as (a1 & H1 & H).
  apply step_enter_frame in H1
    as (vst & vstate & vp & vs & vk & vt & vni & vnw & vnwa & vna & vkr & ->).
  destruct H as [(_ & -> & _) | (_ & a2 & p2 & b & a3 & H2 & H3 & ->)].
  { left; reflexivity. }
  apply step_advance_Ret in H2 as (r & Hr & _ & Ha2).
  apply acceptance_check_Ret in Hr as [_ (ni & nw & nwa & _ & Hr)].
  assert (Hb3 : f_x_best a3 = f_x_best a2 /\ x_best a3 = x_best a2).
  { apply reanneal_test_Ret in H3 as [(_ & _ & -> & _) | (_ & _ & -> & _)];
      split; reflexivity. }
  destruct Hb3 as [Hf Hx].
  change (f_x_best (a3 <| state := if b then NeedToComputeSet else NeedToCompute |>))
    with (f_x_best a3).
  change (x_best (a3 <| state := if b then NeedToComputeSet else NeedToCompute |>))
    with (x_best a3).
  rewrite Hf, Hx, Ha2.
  change (f_x_best (r <| x_cand := x_cand a2 |> <| k := incr (k r) |>
                      <| k_r := incr (k_r r) |>)) with (f_x_best r).
  change (x_best (r <| x_cand := x_cand a2 |> <| k := incr (k r) |>
                    <| k_r := incr (k_r r) |>)) with (x_best r).
  destruct Hr as [[_ ->] | [_ ->]].
  - rewrite accept_candidate_f_x_best, accept_candidate_x_best.
    match goal with |- context [ltb ?u ?v] =>
      change u with (f_x_cand a); change v with (f_x_best a);
      destruct (ltb (f_x_cand a) (f_x_best a))
    end.
    + right. repeat split; reflexivity.
    + left. reflexivity.
  - left. reflexivity.
Qed.

End StepFacts.

(** ** Claims on [complete_reanneal] *)

Section ReannealClaims.

Context {T : Type} {ST : Scalar T}.



End ReannealClaims.




(** C2, at the failing run: with the constant objective and a reanneal every
    two steps, the second call of [step] leaves [f_x_best_repeats = 1] and
    asks for a reanneal; [complete_reanneal] then returns with the statistics
    at 0 and [f_x_best_repeats] still 1. *)
Theorem complete_reanneal_keeps_repeats :
  state (fst Run.level2) = NeedToComputeSet
  /\ f_x_best_repeats (fst Run.level2) = 1
  /\ exists a',
       complete_reanneal (evaluate Run.flat (fst Run.level2)) = Ret a'
       /\ num_improved a' = 0 /\ num_worse a' = 0 /\ num_worse_accepted a' = 0
       /\ num_accepted a' = 0 /\ k_r a' = 0
       /\ f_x_best_repeats a' = 1.
Proof.
  split; [vm_compute; reflexivity|]. split; [vm_compute; reflexivity|].
  eexists. split; [vm_compute; reflexivity|].
  conjs; vm_compute; reflexivity.
Qed.

(** ** Claims on the construction and on [init] *)

Section ConstructionClaims.

Context {T : Type} {ST : Scalar T}.

(** The constructor has no [throw]. *)
Lemma Anneal_new_no_throw (initial_params : list T) param_ranges w :
  Anneal_new initial_params param_ranges <> Throw w.
Proof.
  unfold Anneal_new. cbv zeta.
  match goal with |- obind ?o _ <> _ => destruct o as [r|w'| |] eqn:E end;
    simpl; try discriminate.
  exfalso. revert E. generalize 0%nat.
  match goal with |- forall i, fill_ranges _ i ?u ?v = _ -> _ =>
    generalize u, v end.
  induction param_ranges as [|pr rest IH]; intros rmin rmax i; simpl.
  - discriminate.
  - destruct (store i (fst pr) rmin); simpl; try discriminate.
    destruct (store i (snd pr) rmax); simpl; try discriminate.
    apply IH.
Qed.

(** More ranges than initial parameters: the constructor stores past the end
    of [range_min]. *)
Lemma Anneal_new_overflows (initial_params : list T) param_ranges :
  N.of_nat (length initial_params) < UINT_MODULUS ->
  (length initial_params < length param_ranges)%nat ->
  Anneal_new initial_params param_ranges = Undefined.
Proof.
  intros Hsz Hlen. unfold Anneal_new. cbv zeta.
  match goal with |- obind ?o _ = _ =>
    change o with (fill_ranges param_ranges 0
              (resize (N.to_nat (wrap (N.of_nat (length initial_params)))) (lit 0) [])
              (resize (N.to_nat (wrap (N.of_nat (length initial_params)))) (lit 0) []))
  end.
  rewrite fill_ranges_overflows; [reflexivity | lia | | now rewrite !resize_length].
  rewrite resize_length, (wrap_small _ Hsz). lia.
Qed.

(** C3 (amended).  The constructor checks neither the lengths of its
    arguments nor [D]: when [param_ranges] has no more entries than
    [initial_params] (as many, fewer, or none at all with [D = 0]) it returns
    an object in state [NeedToInit] with [D] the number of initial parameters
    and [x = x_cand = x_best = initial_params]; and no construction throws. *)
Theorem Anneal_new_unchecked (initial_params : list T) (param_ranges : list (T * T)) :
  (length param_ranges <= length initial_params)%nat ->
  N.of_nat (length initial_params) < UINT_MODULUS ->
  (exists a,
     Anneal_new initial_params param_ranges = Ret a
     /\ state a = NeedToInit
     /\ D a = N.of_nat (length initial_params)
     /\ x a = initial_params /\ x_cand a = initial_params
     /\ x_best a = initial_params)
  /\ (forall w, Anneal_new initial_params param_ranges <> Throw w).
Proof.
  intros Hlen Hsz. split; [|intros w; apply Anneal_new_no_throw].
  destruct (fill_ranges_fits param_ranges 0
              (resize (N.to_nat (wrap (N.of_nat (length initial_params)))) (lit 0) [])
              (resize (N.to_nat (wrap (N.of_nat (length initial_params)))) (lit 0) []))
    as (rmin & rmax & E & _ & _).
  { rewrite resize_length, (wrap_small _ Hsz). lia. }
  { now rewrite !resize_length. }
  unfold Anneal_new. cbv zeta.
  match goal with |- exists a, obind ?o _ = _ /\ _ =>
    change o with (fill_ranges param_ranges 0
              (resize (N.to_nat (wrap (N.of_nat (length initial_params)))) (lit 0) [])
              (resize (N.to_nat (wrap (N.of_nat (length initial_params)))) (lit 0) []))
  end.
  rewrite E. cbn [obind]. eexists. split; [reflexivity|].
  repeat split; try reflexivity.
  cbn. now apply wrap_small.
Qed.



End ConstructionClaims.

(** The counterexample of C3: with no parameter at all ([D = 0]) and with
    two initial parameters for one range, the constructor returns an object
    in state [NeedToInit]; with two initial parameters for three ranges its
    behaviour is undefined, which is not a reported error. *)
Lemma Anneal_new_accepts_mismatch :
  (exists a, Anneal_new (T := float) [] [] = Ret a
             /\ state a = NeedToInit /\ D a = 0)
  /\ (exists a, Anneal_new [3; 1]%float [((-5)%float, 5%float)] = Ret a
                /\ state a = NeedToInit /\ D a = 2)
  /\ Anneal_new [3; 1]%float
       [((-5)%float, 5%float); ((-5)%float, 5%float); ((-5)%float, 5%float)]
     = Undefined.
Proof.
  split; [|split].
  - eexists. split; [vm_compute; reflexivity|]. split; reflexivity.
  - eexists. split; [vm_compute; reflexivity|]. split; reflexivity.
  - vm_compute. reflexivity.
Qed.

(** The witness of C3: two parameters, two ranges. *)
Lemma Anneal_new_unchecked_witness :
  (exists a,
     Anneal_new Run.initial_params Run.param_ranges = Ret a
     /\ state a = NeedToInit
     /\ D a = N.of_nat (length Run.initial_params)
     /\ x a = Run.initial_params /\ x_cand a = Run.initial_params
     /\ x_best a = Run.initial_params)
  /\ (forall w, Anneal_new Run.initial_params Run.param_ranges <> Throw w).
Proof.
  apply (Anneal_new_unchecked Run.initial_params Run.param_ranges).
  - vm_compute. lia.
  - vm_compute. reflexivity.
Defined.




(** ** The shape of a call of [step] *)

Section StepShape.

Context {T : Type} {ST : Scalar T}.





End StepShape.

(** ** The bounds of the search *)

Section Bounds.

Context {T : Type} {ST : Scalar T}.



End Bounds.

(** ** The counters of the acceptance ratio *)

Section Denominator.

Context {T : Type} {ST : Scalar T}.









End Denominator.

(** ** When a reanneal starts *)



Section Cadence.

Context {T : Type} {ST : Scalar T}.




End Cadence.

(** ** The constant objective *)

Section ConstantObjective.

Context {T : Type} {ST : Scalar T}.








End ConstantObjective.

(** ** The closed runs *)





(** C1, at the failing run.  Ascending ([downhill = false]), [init] leaves
    the best objective at [lowest()].  A candidate with a larger objective
    (12) is not accepted and the best stays where it was; a candidate with a
    smaller objective (minus infinity) is accepted and becomes the best: the
    best objective has decreased, to a candidate that the ascending search
    counts as worse. *)
Theorem best_ignores_downhill :
  downhill (fst Run.climb0) = false
  /\ f_x_best (fst Run.climb0) = lowest
  /\ f_x_cand (evaluate Run.bowl (fst Run.climb0)) = 12%float
  /\ candidate_is_better (evaluate Run.bowl (fst Run.climb0)) = true
  /\ step Run.tape Run.fuel (evaluate Run.bowl (fst Run.climb0)) 0%nat
     = Ret (fst Run.climb1, snd Run.climb1)
  /\ f_x_best (fst Run.climb1) = lowest
  /\ x_best (fst Run.climb1) = Run.initial_params
  /\ param_hist (fst Run.climb1) = []
  /\ f_x_cand (evaluate Run.abyss (fst Run.climb0)) = neg_infinity
  /\ candidate_is_better (evaluate Run.abyss (fst Run.climb0)) = false
  /\ step Run.tape Run.fuel (evaluate Run.abyss (fst Run.climb0)) 0%nat
     = Ret (fst Run.sink1, snd Run.sink1)
  /\ f_x_best (fst Run.sink1) = neg_infinity
  /\ ltb (f_x_best (fst Run.sink1)) (f_x_best (fst Run.climb0)) = true
  /\ num_accepted (fst Run.sink1) = 1.
Proof. conjs; vm_compute; reflexivity. Qed.











(** ** Runs: what every call of [step] keeps *)

Section RunFacts.

Context {T : Type} {ST : Scalar T}.









(** *** The states *)


(** *** The repeats of the best objective *)







(** *** The statistics *)




(** *** The histories and the best point *)








(** *** The samples of a reanneal *)








(** *** The temperatures *)



(** *** The dimensions *)

Lemma zip_with_length {A B C} (f : A -> B -> C) l : forall r,
  length (zip_with f l r) = Nat.min (length l) (length r).
Proof.
  induction l as [|e l IH]; intros [|e' r]; simpl; auto.
Qed.







End RunFacts.










(** ** The members of [vVector] *)

(** What a write at [i] leaves before and after it. *)
Lemma stored_firstn {A} (i : nat) (e : A) v :
  (i < length v)%nat ->
  firstn (S i) (firstn i v ++ e :: skipn (S i) v) = firstn i v ++ [e].
Proof.
  intros H. rewrite firstn_app, length_firstn, firstn_firstn.
  replace (Nat.min (S i) i) with i by lia.
  replace (S i - Nat.min i (length v))%nat with 1%nat by lia.
  reflexivity.
Qed.

Lemma stored_skipn {A} (i m : nat) (e : A) v :
  (i < length v)%nat -> (S i <= m)%nat ->
  skipn m (firstn i v ++ e :: skipn (S i) v) = skipn m v.
Proof.
  intros H Hm. rewrite skipn_app, length_firstn.
  replace (Nat.min i (length v)) with i by lia.
  rewrite (skipn_all2 (firstn i v)) by (rewrite length_firstn; lia).
  replace (m - i)%nat with (S (m - S i)) by lia.
  cbn [app].
  change (skipn (S (m - S i)) (e :: skipn (S i) v))
    with (skipn (m - S i) (skipn (S i) v)).
  rewrite skipn_skipn. f_equal. lia.
Qed.

Section AlgorithmFacts.

Context {A B : Type}.

(** [std::copy] into a range that holds the source. *)
Lemma copy_fits (src : list A) : forall i dst,
  (i + length src <= length dst)%nat ->
  std_copy src i dst = Ret (firstn i dst ++ src ++ skipn (i + length src) dst).
Proof.
  induction src as [|e src IH]; intros i dst H; cbn [std_copy length app] in *.
  - rewrite Nat.add_0_r. now rewrite firstn_skipn.
  - destruct (store_in_range i e dst) as [dst' E]; [lia|].
    rewrite E. cbn [of_option obind].
    pose proof (store_length E) as L. apply store_Some in E as [Hi ->].
    rewrite IH by lia.
    rewrite stored_firstn, stored_skipn by lia.
    rewrite <- app_assoc. cbn [app].
    replace (S i + length src)%nat with (i + S (length src))%nat by lia.
    reflexivity.
Qed.

(** [std::copy] into a range that is too short. *)
Lemma copy_overflows (src : list A) : forall i dst,
  (i <= length dst)%nat ->
  (length dst < i + length src)%nat ->
  std_copy src i dst = Undefined.
Proof.
  induction src as [|e src IH]; intros i dst Hi H; cbn [std_copy length] in *.
  - lia.
  - destruct (store i e dst) as [dst'|] eqn:E; [|reflexivity].
    cbn [of_option obind]. pose proof (store_length E) as L.
    apply store_Some in E as [Hlt _]. apply IH; lia.
Qed.

(** [std::transform] with a function object that keeps no state. *)
Lemma transform_map (f : A -> B) (src : list A) : forall i dst,
  (i + length src <= length dst)%nat ->
  std_transform (fun _ e => Ret (f e)) src i dst
  = Ret (firstn i dst ++ map f src ++ skipn (i + length src) dst).
Proof.
  induction src as [|e src IH]; intros i dst H; cbn [std_transform length map app] in *.
  - rewrite Nat.add_0_r. now rewrite firstn_skipn.
  - cbn [obind].
    destruct (store_in_range i (f e) dst) as [dst' E]; [lia|].
    rewrite E. cbn [of_option obind].
    pose proof (store_length E) as L. apply store_Some in E as [Hi ->].
    rewrite IH by lia.
    rewrite stored_firstn, stored_skipn by lia.
    rewrite <- app_assoc. cbn [app].
    replace (S i + length src)%nat with (i + S (length src))%nat by lia.
    reflexivity.
Qed.

Lemma transform_map_overflows (f : A -> B) (src : list A) : forall i dst,
  (i <= length dst)%nat ->
  (length dst < i + length src)%nat ->
  std_transform (fun _ e => Ret (f e)) src i dst = Undefined.
Proof.
  induction src as [|e src IH]; intros i dst Hi H; cbn [std_transform length] in *.
  - lia.
  - cbn [obind]. destruct (store i (f e) dst) as [dst'|] eqn:E; [|reflexivity].
    cbn [of_option obind]. pose proof (store_length E) as L.
    apply store_Some in E as [Hlt _]. apply IH; lia.
Qed.

(** [std::accumulate] with a function object that keeps no state. *)
Lemma accumulate_fold (f : B -> A -> B) (src : list A) : forall i init,
  std_accumulate (fun _ a b => Ret (f a b)) src i init = Ret (fold_left f src init).
Proof.
  induction src as [|e src IH]; intros i init; cbn [std_accumulate fold_left obind].
  - reflexivity.
  - apply IH.
Qed.

End AlgorithmFacts.

Section MemberFacts.

Context {T : Type} {ST : Scalar T}.

Lemma sized_length count : length (vVector.sized (T := T) count) = count.
Proof. apply repeat_length. Qed.

(** Into a vector of the size of the source, and in place. *)
Lemma transform_map_sized (f : T -> T) this :
  std_transform (fun _ e => Ret (f e)) this 0 (vVector.sized (length this))
  = Ret (map f this).
Proof.
  rewrite transform_map by (rewrite sized_length; lia).
  cbn [firstn app plus]. rewrite skipn_all2 by (rewrite sized_length; lia).
  now rewrite app_nil_r.
Qed.

Lemma transform_map_in_place (f : T -> T) this :
  std_transform (fun _ e => Ret (f e)) this 0 this = Ret (map f this).
Proof.
  rewrite transform_map by (cbn; lia).
  cbn [firstn app plus]. rewrite skipn_all. now rewrite app_nil_r.
Qed.

(** [std::transform] with a lambda that reads the next element of [v] at
    each call: defined as long as [v] has an element for each call. *)
Lemma transform_with_next (f : T -> T -> T) v (src : list T) : forall i dst,
  (i + length src <= length dst)%nat ->
  (i + length src <= length v)%nat ->
  std_transform (vVector.with_next f v) src i dst
  = Ret (firstn i dst ++ zip_with f src (skipn i v) ++ skipn (i + length src) dst).
Proof.
  induction src as [|e src IH]; intros i dst H Hv; cbn [std_transform length app] in *.
  - rewrite Nat.add_0_r. cbn [zip_with app]. now rewrite firstn_skipn.
  - unfold vVector.with_next at 1. unfold subscript.
    destruct (nth_error v i) as [e'|] eqn:En.
    2:{ apply nth_error_None in En. lia. }
    cbn [of_option obind].
    destruct (store_in_range i (f e e') dst) as [dst' E]; [lia|].
    rewrite E. cbn [of_option obind].
    pose proof (store_length E) as L. apply store_Some in E as [Hi ->].
    rewrite IH by lia.
    rewrite stored_firstn, stored_skipn by lia.
    rewrite <- app_assoc. cbn [app].
    assert (Hs : skipn i v = e' :: skipn (S i) v).
    { clear - En. revert v En. induction i as [|i IHi]; intros [|h v] En;
        try discriminate.
      - injection En as ->. reflexivity.
      - cbn [skipn]. apply IHi. exact En. }
    rewrite Hs. cbn [zip_with app].
    replace (S i + length src)%nat with (i + S (length src))%nat by lia.
    reflexivity.
Qed.

Lemma transform_with_next_short (f : T -> T -> T) v (src : list T) : forall i dst,
  (length v <= length dst)%nat ->
  (i <= length v)%nat ->
  (length v < i + length src)%nat ->
  std_transform (vVector.with_next f v) src i dst = Undefined.
Proof.
  induction src as [|e src IH]; intros i dst H Hi Hv; cbn [std_transform length] in *.
  - lia.
  - unfold vVector.with_next at 1. unfold subscript.
    destruct (nth_error v i) as [e'|] eqn:En; [|reflexivity].
    assert (Hlt : (i < length v)%nat) by (apply nth_error_Some; congruence).
    cbn [of_option obind].
    destruct (store_in_range i (f e e') dst) as [dst' E]; [lia|].
    rewrite E. cbn [of_option obind].
    apply IH; [rewrite (store_length E)| |]; lia.
Qed.

Lemma zip_with_firstn (f : T -> T -> T) this : forall v,
  zip_with f this v = zip_with f this (firstn (length this) v).
Proof.
  induction this as [|e this IH]; intros [|e' v]; cbn; try reflexivity.
  f_equal. apply IH.
Qed.

Lemma with_next_sized (f : T -> T -> T) this v :
  (length this <= length v)%nat ->
  std_transform (vVector.with_next f v) this 0 (vVector.sized (length this))
  = Ret (zip_with f this v).
Proof.
  intros H. rewrite transform_with_next by (rewrite ?sized_length; lia).
  cbn [firstn app plus skipn]. rewrite skipn_all2 by (rewrite sized_length; lia).
  now rewrite app_nil_r.
Qed.

Lemma with_next_in_place (f : T -> T -> T) this v :
  (length this <= length v)%nat ->
  std_transform (vVector.with_next f v) this 0 this = Ret (zip_with f this v).
Proof.
  intros H. rewrite transform_with_next by (cbn; lia).
  cbn [firstn app plus skipn]. rewrite skipn_all. now rewrite app_nil_r.
Qed.

(** X10.  [operator+] and [operator-] of two vectors, and their in-place forms:
    with an argument that has at least as many components as this vector,
    the result has this vector's size and holds the sums (differences) of
    the components at each subscript, the further components of the argument
    being ignored; with a shorter argument the call reads past its end. *)
Theorem vVector_sum_and_difference (this v : list T) :
  ((length this <= length v)%nat ->
   vVector.operator_plus this v = Ret (vadd this v)
   /\ vVector.operator_plus_assign this v = Ret (vadd this v)
   /\ vVector.operator_minus this v = Ret (vsub this v)
   /\ vVector.operator_minus_assign this v = Ret (vsub this v)
   /\ length (vadd this v) = length this
   /\ length (vsub this v) = length this)
  /\ ((length v < length this)%nat ->
      vVector.operator_plus this v = Undefined
      /\ vVector.operator_plus_assign this v = Undefined
      /\ vVector.operator_minus this v = Undefined
      /\ vVector.operator_minus_assign this v = Undefined).
Proof.
  split; intros H.
  - unfold vVector.operator_plus, vVector.operator_plus_assign,
      vVector.operator_minus, vVector.operator_minus_assign. cbv zeta.
    rewrite !with_next_sized, !with_next_in_place by exact H.
    unfold vadd, vsub. rewrite !zip_with_length. conjs; try reflexivity; lia.
  - unfold vVector.operator_plus, vVector.operator_plus_assign,
      vVector.operator_minus, vVector.operator_minus_assign. cbv zeta.
    rewrite !transform_with_next_short by (rewrite ?sized_length; cbn; lia).
    conjs; reflexivity.
Qed.

(** X11.  The scalar operators.  [operator*], [operator/] and [operator+] with
    a scalar, their in-place forms, [operator-=] with a scalar and the unary
    minus apply the operation to every component and keep the size.
    [operator-] with a scalar writes through the beginning of a vector that
    it declared without a size: it returns (an empty vector) only for an
    empty vector. *)
Theorem vVector_scalar_operators (this : list T) (s : T) :
  vVector.operator_times_scalar this s = Ret (vmul_s this s)
  /\ vVector.operator_times_assign_scalar this s = Ret (vmul_s this s)
  /\ vVector.operator_divide_scalar this s = Ret (vdiv_s this s)
  /\ vVector.operator_divide_assign_scalar this s = Ret (vdiv_s this s)
  /\ vVector.operator_plus_scalar this s = Ret (vadd_s this s)
  /\ vVector.operator_plus_assign_scalar this s = Ret (vadd_s this s)
  /\ vVector.operator_minus_assign_scalar this s = Ret (vsub_s this s)
  /\ vVector.operator_negate this = Ret (vneg this)
  /\ vVector.operator_minus_scalar this s
     = match this with [] => Ret [] | _ :: _ => Undefined end.
Proof.
  unfold vVector.operator_times_scalar, vVector.operator_times_assign_scalar,
    vVector.operator_divide_scalar, vVector.operator_divide_assign_scalar,
    vVector.operator_plus_scalar, vVector.operator_plus_assign_scalar,
    vVector.operator_minus_assign_scalar, vVector.operator_negate,
    vVector.operator_minus_scalar. cbv zeta.
  rewrite !transform_map_sized, !transform_map_in_place.
  conjs; try reflexivity.
  destruct this as [|e this]; reflexivity.
Qed.

(** X12.  [hadamard]: the result has the size of the argument, not of this
    vector: the products of the components at the indices of this vector,
    then zeros; with an argument shorter than this vector the call reads
    past the end of the argument. *)
Theorem vVector_hadamard_size (this v : list T) :
  ((length this <= length v)%nat ->
   vVector.hadamard this v
   = Ret (vmul this v ++ repeat (lit 0) (length v - length this)))
  /\ ((length v < length this)%nat -> vVector.hadamard this v = Undefined).
Proof.
  unfold vVector.hadamard. cbv zeta. split; intros H.
  - rewrite transform_with_next by (rewrite ?repeat_length; lia).
    cbn [firstn app plus skipn]. unfold vmul. do 2 f_equal.
    clear H. generalize (length v). generalize (length this).
    intros j. induction j as [|j IH]; intros m.
    + cbn. now rewrite Nat.sub_0_r.
    + destruct m as [|m]; cbn [repeat skipn Nat.sub]; [reflexivity | apply IH].
  - apply transform_with_next_short; rewrite ?repeat_length; lia.
Qed.

(** [std::accumulate] with the lambda of [dot], which reads the next
    element of [v] at each call. *)
Lemma accumulate_dot v (src : list T) : forall i init,
  (i + length src <= length v)%nat ->
  std_accumulate (fun j a b => obind (subscript v j) (fun e => Ret (add a (mul b e))))
    src i init
  = Ret (fold_left add (zip_with mul src (skipn i v)) init).
Proof.
  induction src as [|b src IH]; intros i init H; cbn [std_accumulate length] in *.
  - reflexivity.
  - unfold subscript at 1.
    destruct (nth_error v i) as [e|] eqn:En.
    2:{ apply nth_error_None in En. lia. }
    cbn [of_option obind]. rewrite IH by lia.
    assert (Hs : skipn i v = e :: skipn (S i) v).
    { clear - En. revert v En. induction i as [|i IHi]; intros [|h v] En;
        try discriminate.
      - injection En as ->. reflexivity.
      - cbn [skipn]. apply IHi. exact En. }
    rewrite Hs. reflexivity.
Qed.

Lemma accumulate_dot_short v (src : list T) : forall i init,
  (i <= length v)%nat ->
  (length v < i + length src)%nat ->
  std_accumulate (fun j a b => obind (subscript v j) (fun e => Ret (add a (mul b e))))
    src i init
  = Undefined.
Proof.
  induction src as [|b src IH]; intros i init Hi H; cbn [std_accumulate length] in *.
  - lia.
  - unfold subscript at 1.
    destruct (nth_error v i) as [e|] eqn:En; [|reflexivity].
    assert (Hlt : (i < length v)%nat) by (apply nth_error_Some; congruence).
    cbn [of_option obind]. apply IH; lia.
Qed.

Lemma fold_add_squared (this : list T) : forall init,
  fold_left vVector.add_squared this init
  = fold_left add (zip_with mul this this) init.
Proof.
  induction this as [|e this IH]; intros init; cbn [fold_left zip_with].
  - reflexivity.
  - apply IH.
Qed.

Section Roots.

Variable sqrt : T -> T.

(** X13.  [dot] is the sum, from zero and first to last, of the products of
    the components at each subscript of this vector, whenever the argument has a
    component for each of them, and reads past the end of a shorter
    argument; and [length()] is the square root of the scalar product of the
    vector with itself, which [operator!] compares with zero. *)
Theorem vVector_dot_and_length (this v : list T) :
  ((length this <= length v)%nat ->
   vVector.dot this v = Ret (vsum (vmul this v)))
  /\ ((length v < length this)%nat -> vVector.dot this v = Undefined)
  /\ (exists d,
        vVector.dot this this = Ret d
        /\ vVector.length sqrt this = Ret (sqrt d)
        /\ vVector.operator_not sqrt this = Ret (eqb (sqrt d) (lit 0))).
Proof.
  unfold vVector.dot. conjs.
  - intros H. rewrite accumulate_dot by (cbn; lia). reflexivity.
  - intros H. apply accumulate_dot_short; lia.
  - exists (vsum (vmul this this)). conjs.
    + rewrite accumulate_dot by (cbn; lia). reflexivity.
    + unfold vVector.length. rewrite accumulate_fold. cbn [obind].
      rewrite fold_add_squared. reflexivity.
    + unfold vVector.operator_not, vVector.length. rewrite accumulate_fold.
      cbn [obind]. rewrite fold_add_squared.
      change (fold_left add (zip_with mul this this) (lit 0)) with (vsum (vmul this this)).
      destruct (eqb (sqrt (vsum (vmul this this))) (lit 0)); reflexivity.
Qed.

(** X14.  [renormalize()] always returns, keeps the size of the vector, and
    leaves alone a vector that [operator!] finds to be of length zero. *)
Theorem vVector_renormalize_keeps (this : list T) :
  exists r,
    vVector.renormalize sqrt this = Ret r
    /\ length r = length this
    /\ (vVector.operator_not sqrt this = Ret true -> r = this).
Proof.
  unfold vVector.renormalize, vVector.operator_not, vVector.length.
  rewrite accumulate_fold. cbn [obind]. cbv zeta.
  destruct (eqb (sqrt (fold_left vVector.add_squared this (lit 0))) (lit 0)) eqn:E;
    cbn [negb].
  - exists this. conjs; auto.
  - rewrite transform_map_in_place. eexists. conjs; [reflexivity | | discriminate].
    apply length_map.
Qed.

End Roots.

(** X15.  The two cross products.  On two vectors of three components
    [operator*] returns, and [operator*=] leaves in this vector, the three
    components of the cross product.  On any other sizes [operator*] returns
    an empty vector and [operator*=] leaves this vector as it is. *)
Theorem vVector_cross_products :
  (forall t0 t1 t2 v0 v1 v2 : T,
     vVector.operator_times [t0; t1; t2] [v0; v1; v2]
     = Ret [sub (mul t1 v2) (mul t2 v1); sub (mul t2 v0) (mul t0 v2);
            sub (mul t0 v1) (mul t1 v0)]
     /\ vVector.operator_times_assign [t0; t1; t2] [v0; v1; v2]
        = vVector.operator_times [t0; t1; t2] [v0; v1; v2])
  /\ (forall this v : list T,
        length this <> 3%nat \/ length v <> 3%nat ->
        vVector.operator_times this v = Ret []
        /\ vVector.operator_times_assign this v = Ret this).
Proof.
  split.
  - intros. split; reflexivity.
  - intros this v H. unfold vVector.operator_times, vVector.operator_times_assign.
    cbv zeta.
    destruct (Nat.eqb_spec (length this) 3); destruct (Nat.eqb_spec (length v) 3);
      cbn [andb]; try (split; reflexivity).
    destruct H; contradiction.
Qed.

(** The loop of [set_from_onelonger], when both vectors hold the indices it
    visits. *)
Lemma assign_each_fits v count : forall i (this : list T),
  (i + count <= length v)%nat -> (i + count <= length this)%nat ->
  vVector.assign_each count i v this
  = Ret (firstn i this ++ firstn count (skipn i v) ++ skipn (i + count) this).
Proof.
  induction count as [|count IH]; intros i this Hv Ht; cbn [vVector.assign_each].
  - rewrite Nat.add_0_r. cbn [firstn app]. now rewrite firstn_skipn.
  - unfold subscript.
    destruct (nth_error v i) as [e|] eqn:En.
    2:{ apply nth_error_None in En. lia. }
    cbn [of_option obind].
    destruct (store_in_range i e this) as [this' E]; [lia|].
    rewrite E. cbn [of_option obind].
    pose proof (store_length E) as L. apply store_Some in E as [Hi ->].
    rewrite IH by lia.
    rewrite stored_firstn, stored_skipn by lia.
    rewrite <- app_assoc. cbn [app].
    assert (Hs : skipn i v = e :: skipn (S i) v).
    { clear - En. revert v En. induction i as [|i IHi]; intros [|h v] En;
        try discriminate.
      - injection En as ->. reflexivity.
      - cbn [skipn]. apply IHi. exact En. }
    rewrite Hs. cbn [firstn app].
    replace (S i + count)%nat with (i + S count)%nat by lia.
    reflexivity.
Qed.

(** X16.  [set_from_onelonger] never reads or writes out of range and never
    changes the size of this vector: when the argument is exactly one
    component longer, this vector becomes the argument without its last
    component; otherwise it is left as it is. *)
Theorem vVector_set_from_onelonger (v this : list T) :
  exists r,
    vVector.set_from_onelonger v this = Ret r
    /\ length r = length this
    /\ (length v = (length this + 1)%nat -> exists e, v = r ++ [e])
    /\ (length v <> (length this + 1)%nat -> r = this).
Proof.
  unfold vVector.set_from_onelonger.
  destruct (Nat.eqb_spec (length v) (length this + 1)) as [E|E].
  - rewrite assign_each_fits by lia.
    cbn [firstn app plus skipn]. rewrite skipn_all, app_nil_r.
    exists (firstn (length this) v). conjs.
    + reflexivity.
    + rewrite length_firstn. lia.
    + intros _. destruct (skipn (length this) v) as [|e [|e' l]] eqn:Es.
      * apply (f_equal (@length T)) in Es. rewrite length_skipn in Es. cbn in Es. lia.
      * exists e. rewrite <- Es. symmetry. apply firstn_skipn.
      * apply (f_equal (@length T)) in Es. rewrite length_skipn in Es. cbn in Es. lia.
    + intros; contradiction.
  - exists this. conjs; auto. intros; contradiction.
Qed.

(** X17.  [set_from] a [std::vector] copies over the beginning of this vector
    and keeps its size and the components beyond the std_copy; it writes past
    the end of a vector shorter than its argument.  [set_from] a
    [std::array] resizes first, so that this vector becomes the array. *)
Theorem vVector_set_from (vec this : list T) :
  ((length vec <= length this)%nat ->
   vVector.set_from_vector vec this = Ret (vec ++ skipn (length vec) this))
  /\ ((length this < length vec)%nat ->
      vVector.set_from_vector vec this = Undefined)
  /\ vVector.set_from_array vec this = Ret vec.
Proof.
  unfold vVector.set_from_vector, vVector.set_from_array. cbv zeta. conjs.
  - intros H. rewrite copy_fits by (cbn; lia). reflexivity.
  - intros H. apply copy_overflows; cbn; lia.
  - rewrite copy_fits by (rewrite resize_length; cbn; lia).
    cbn [firstn app plus]. rewrite skipn_all2 by (rewrite resize_length; lia).
    now rewrite app_nil_r.
Qed.

Section Streams.

Variable show : T -> string.

Local Open Scope string_scope.

Lemma string_append_assoc (s1 s2 s3 : string) : (s1 ++ s2) ++ s3 = s1 ++ s2 ++ s3.
Proof. induction s1 as [|ch s1 IH]; cbn; [reflexivity | now rewrite IH]. Qed.

Lemma string_append_empty (s1 : string) : s1 ++ EmptyString = s1.
Proof. induction s1 as [|ch s1 IH]; cbn; [reflexivity | now rewrite IH]. Qed.

Lemma concat_cons_empty (s1 : string) (l : list string) :
  String.concat EmptyString (s1 :: l) = s1 ++ String.concat EmptyString l.
Proof. destruct l; cbn; [now rewrite string_append_empty | reflexivity]. Qed.

(** The loop of [str()] after the first component: a comma before each. *)
Lemma str_each_rest (rest : list T) : forall ss,
  vVector.str_each show rest false ss
  = ss ++ String.concat EmptyString (map (fun e => "," ++ show e) rest).
Proof.
  induction rest as [|e rest IH]; intros ss; cbn [vVector.str_each map].
  - cbn. now rewrite string_append_empty.
  - rewrite IH, concat_cons_empty. now rewrite string_append_assoc.
Qed.

Lemma concat_commas (rest : list T) : forall e,
  String.concat "," (map show (e :: rest))
  = show e ++ String.concat EmptyString (map (fun e => "," ++ show e) rest).
Proof.
  induction rest as [|e' rest IH]; intros e.
  - cbn. now rewrite string_append_empty.
  - change (String.concat "," (map show (e :: e' :: rest)))
      with (show e ++ "," ++ String.concat "," (map show (e' :: rest))).
    rewrite IH. cbn [map]. rewrite concat_cons_empty.
    now rewrite <- (string_append_assoc "," (show e')).
Qed.

(** X18.  [str()] writes the components between parentheses and separated by
    commas, with no comma after the last one: "()" for the empty vector. *)
Theorem vVector_str_format (this : list T) :
  vVector.str show this = "(" ++ String.concat "," (map show this) ++ ")".
Proof.
  unfold vVector.str. cbv zeta. destruct this as [|e rest].
  - reflexivity.
  - cbn [vVector.str_each]. rewrite str_each_rest, concat_commas.
    now rewrite !string_append_assoc.
Qed.

End Streams.

End MemberFacts.

(** ** The members of [Vector] *)

Lemma skipn_nth_error {A} (v : list A) : forall i e,
  nth_error v i = Some e -> skipn i v = e :: skipn (S i) v.
Proof.
  induction v as [|h v IH]; intros [|i] e H; try discriminate.
  - injection H as ->. reflexivity.
  - cbn [skipn]. apply IH. exact H.
Qed.

Section FixedVectorFacts.

Context {T : Type} {ST : Scalar T}.

(** The loop over the indices that assigns from another vector. *)
Lemma for_index_assign_from (f : T -> T) val count : forall i rval,
  (i + count <= length val)%nat -> (i + count <= length rval)%nat ->
  for_index count i (Vector.assign_from f val) rval
  = Ret (firstn i rval ++ map f (firstn count (skipn i val))
           ++ skipn (i + count) rval).
Proof.
  induction count as [|count IH]; intros i rval Hv Hr; cbn [for_index].
  - rewrite Nat.add_0_r. cbn [firstn map app]. now rewrite firstn_skipn.
  - unfold Vector.assign_from at 1. unfold subscript.
    destruct (nth_error val i) as [e|] eqn:En.
    2:{ apply nth_error_None in En. lia. }
    cbn [of_option obind].
    destruct (store_in_range i (f e) rval) as [rval' E]; [lia|].
    rewrite E. cbn [of_option obind].
    pose proof (store_length E) as L. apply store_Some in E as [Hi ->].
    rewrite IH by lia.
    rewrite stored_firstn, stored_skipn by lia.
    rewrite (skipn_nth_error _ _ _ En). cbn [firstn map].
    rewrite <- app_assoc. cbn [app].
    replace (S i + count)%nat with (i + S count)%nat by lia.
    reflexivity.
Qed.

(** The loop over the indices that assigns in place. *)
Lemma for_index_assign_in_place (f : T -> T) count : forall i val,
  (i + count <= length val)%nat ->
  for_index count i (Vector.assign_in_place f) val
  = Ret (firstn i val ++ map f (firstn count (skipn i val))
           ++ skipn (i + count) val).
Proof.
  induction count as [|count IH]; intros i val Hv; cbn [for_index].
  - rewrite Nat.add_0_r. cbn [firstn map app]. now rewrite firstn_skipn.
  - unfold Vector.assign_in_place at 1. unfold subscript.
    destruct (nth_error val i) as [e|] eqn:En.
    2:{ apply nth_error_None in En. lia. }
    cbn [of_option obind].
    destruct (store_in_range i (f e) val) as [val' E]; [lia|].
    rewrite E. cbn [of_option obind].
    pose proof (store_length E) as L. apply store_Some in E as [Hi ->].
    rewrite IH by lia.
    rewrite stored_firstn by lia. rewrite !stored_skipn by lia.
    rewrite (skipn_nth_error _ _ _ En). cbn [firstn map].
    rewrite <- app_assoc. cbn [app].
    replace (S i + count)%nat with (i + S count)%nat by lia.
    reflexivity.
Qed.

Lemma for_index_assign_from2 (f : T -> T -> T) val val2 count : forall i v,
  (i + count <= length val)%nat -> (i + count <= length val2)%nat ->
  (i + count <= length v)%nat ->
  for_index count i (Vector.assign_from2 f val val2) v
  = Ret (firstn i v
           ++ zip_with f (firstn count (skipn i val)) (firstn count (skipn i val2))
           ++ skipn (i + count) v).
Proof.
  induction count as [|count IH]; intros i v Hv Hv2 Hr; cbn [for_index].
  - rewrite Nat.add_0_r. cbn [firstn zip_with app]. now rewrite firstn_skipn.
  - unfold Vector.assign_from2 at 1. unfold subscript.
    destruct (nth_error val i) as [a|] eqn:En.
    2:{ apply nth_error_None in En. lia. }
    destruct (nth_error val2 i) as [b|] eqn:En2.
    2:{ apply nth_error_None in En2. lia. }
    cbn [of_option obind].
    destruct (store_in_range i (f a b) v) as [v' E]; [lia|].
    rewrite E. cbn [of_option obind].
    pose proof (store_length E) as L. apply store_Some in E as [Hi ->].
    rewrite IH by lia.
    rewrite stored_firstn, stored_skipn by lia.
    rewrite (skipn_nth_error _ _ _ En), (skipn_nth_error _ _ _ En2).
    cbn [firstn zip_with].
    rewrite <- app_assoc. cbn [app].
    replace (S i + count)%nat with (i + S count)%nat by lia.
    reflexivity.
Qed.

Lemma for_index_assign_in_place2 (f : T -> T -> T) val2 count : forall i val,
  (i + count <= length val)%nat -> (i + count <= length val2)%nat ->
  for_index count i (Vector.assign_in_place2 f val2) val
  = Ret (firstn i val
           ++ zip_with f (firstn count (skipn i val)) (firstn count (skipn i val2))
           ++ skipn (i + count) val).
Proof.
  induction count as [|count IH]; intros i val Hv Hv2; cbn [for_index].
  - rewrite Nat.add_0_r. cbn [firstn zip_with app]. now rewrite firstn_skipn.
  - unfold Vector.assign_in_place2 at 1. unfold subscript.
    destruct (nth_error val i) as [a|] eqn:En.
    2:{ apply nth_error_None in En. lia. }
    destruct (nth_error val2 i) as [b|] eqn:En2.
    2:{ apply nth_error_None in En2. lia. }
    cbn [of_option obind].
    destruct (store_in_range i (f a b) val) as [val' E]; [lia|].
    rewrite E. cbn [of_option obind].
    pose proof (store_length E) as L. apply store_Some in E as [Hi ->].
    rewrite IH by lia.
    rewrite stored_firstn by lia. rewrite !stored_skipn by lia.
    rewrite (skipn_nth_error _ _ _ En), (skipn_nth_error _ _ _ En2).
    cbn [firstn zip_with].
    rewrite <- app_assoc. cbn [app].
    replace (S i + count)%nat with (i + S count)%nat by lia.
    reflexivity.
Qed.

Section Sized.

Variable N : nat.
Variable fresh : list T.

Hypothesis fresh_size : length fresh = N.

Lemma whole_from (f : T -> T) this :
  length this = N ->
  for_index N 0 (Vector.assign_from f this) fresh = Ret (map f this).
Proof.
  intros H. rewrite for_index_assign_from by (cbn; lia).
  cbn [firstn app plus skipn]. rewrite <- H at 1. rewrite firstn_all.
  rewrite skipn_all2 by lia. now rewrite app_nil_r.
Qed.

Lemma whole_in_place (f : T -> T) this :
  length this = N ->
  for_index N 0 (Vector.assign_in_place f) this = Ret (map f this).
Proof.
  intros H. rewrite for_index_assign_in_place by (cbn; lia).
  cbn [firstn app plus skipn]. rewrite <- H at 1. rewrite firstn_all.
  rewrite skipn_all2 by lia. now rewrite app_nil_r.
Qed.

Lemma whole_from2 (f : T -> T -> T) this v2 :
  length this = N -> length v2 = N ->
  for_index N 0 (Vector.assign_from2 f this v2) fresh = Ret (zip_with f this v2).
Proof.
  intros H H2. rewrite for_index_assign_from2 by (cbn; lia).
  cbn [firstn app plus skipn]. rewrite <- H at 1. rewrite <- H2 at 1.
  rewrite !firstn_all. rewrite skipn_all2 by lia. now rewrite app_nil_r.
Qed.

Lemma whole_in_place2 (f : T -> T -> T) this v2 :
  length this = N -> length v2 = N ->
  for_index N 0 (Vector.assign_in_place2 f v2) this = Ret (zip_with f this v2).
Proof.
  intros H H2. rewrite for_index_assign_in_place2 by (cbn; lia).
  cbn [firstn app plus skipn]. rewrite <- H at 1. rewrite <- H2 at 1.
  rewrite !firstn_all. rewrite skipn_all2 by lia. now rewrite app_nil_r.
Qed.

(** X19.  The element-wise operators of [Vector<Flt, N>].  On vectors of [N]
    components every operator returns, whatever the local result vector held
    before it was assigned to: the unary minus, the sum and the difference
    of two vectors, and the product, quotient, sum and difference with a
    scalar hold the operation applied at each subscript, and the in-place forms
    leave the same components in this vector. *)
Theorem Vector_elementwise (this v2 : list T) (s : T) :
  length this = N -> length v2 = N ->
  Vector.operator_negate fresh this = Ret (vneg this)
  /\ Vector.operator_plus N fresh this v2 = Ret (vadd this v2)
  /\ Vector.operator_plus_assign N this v2 = Ret (vadd this v2)
  /\ Vector.operator_minus N fresh this v2 = Ret (vsub this v2)
  /\ Vector.operator_minus_assign N this v2 = Ret (vsub this v2)
  /\ Vector.operator_times_scalar N fresh this s = Ret (vmul_s this s)
  /\ Vector.operator_times_assign_scalar N this s = Ret (vmul_s this s)
  /\ Vector.operator_divide_scalar N fresh this s = Ret (vdiv_s this s)
  /\ Vector.operator_divide_assign_scalar N this s = Ret (vdiv_s this s)
  /\ Vector.operator_plus_scalar N fresh this s = Ret (vadd_s this s)
  /\ Vector.operator_plus_assign_scalar N this s = Ret (vadd_s this s)
  /\ Vector.operator_minus_scalar N fresh this s = Ret (vsub_s this s)
  /\ Vector.operator_minus_assign_scalar N this s = Ret (vsub_s this s).
Proof.
  intros H H2.
  unfold Vector.operator_negate, Vector.operator_plus, Vector.operator_plus_assign,
    Vector.operator_minus, Vector.operator_minus_assign,
    Vector.operator_times_scalar, Vector.operator_times_assign_scalar,
    Vector.operator_divide_scalar, Vector.operator_divide_assign_scalar,
    Vector.operator_plus_scalar, Vector.operator_plus_assign_scalar,
    Vector.operator_minus_scalar, Vector.operator_minus_assign_scalar.
  cbv zeta.
  rewrite !whole_from, !whole_in_place, !whole_from2, !whole_in_place2 by assumption.
  conjs; try reflexivity.
  rewrite transform_map by lia.
  cbn [firstn app plus]. rewrite skipn_all2 by lia. now rewrite app_nil_r.
Qed.

End Sized.

(** X20.  The two cross products of [Vector<Flt, 3>]: [operator*] returns,
    and [operator*=] leaves in this vector, the three components of the
    cross product, whatever the local vector [v] held before. *)
Theorem Vector_cross_products (t0 t1 t2 a b c f0 f1 f2 : T) :
  Vector.operator_times [f0; f1; f2] [t0; t1; t2] [a; b; c]
  = Ret [sub (mul t1 c) (mul t2 b); sub (mul t2 a) (mul t0 c);
         sub (mul t0 b) (mul t1 a)]
  /\ Vector.operator_times_assign [f0; f1; f2] [t0; t1; t2] [a; b; c]
     = Vector.operator_times [f0; f1; f2] [t0; t1; t2] [a; b; c].
Proof. split; reflexivity. Qed.

Section Reductions.

Variable sqrt : T -> T.
Variable show : T -> string.

Lemma asString_each_str (this : list T) : forall first ss,
  Vector.asString_each show this first ss = vVector.str_each show this first ss.
Proof.
  induction this as [|e this IH]; intros first ss; cbn; [reflexivity|].
  destruct first; apply IH.
Qed.

(** X21.  The reductions of [Vector<Flt, N>] on vectors of one size: [dot] is
    the sum, from zero and first to last, of the products of the components;
    [length()] is the square root of the scalar product of the vector with
    itself, and [operator!] compares it with zero; [renormalize()] keeps the
    size and leaves alone a vector that [operator!] finds of length zero;
    [asString()] writes the components between parentheses, separated by
    commas. *)
Theorem Vector_reductions (this v2 : list T) :
  length this = length v2 ->
  Vector.dot this v2 = Ret (vsum (vmul this v2))
  /\ Vector.length sqrt this = Ret (sqrt (vsum (vmul this this)))
  /\ Vector.operator_not sqrt this
     = Ret (eqb (sqrt (vsum (vmul this this))) (lit 0))
  /\ (exists r,
        Vector.renormalize sqrt this = Ret r
        /\ length r = length this
        /\ (Vector.operator_not sqrt this = Ret true -> r = this))
  /\ Vector.asString show this
     = ("(" ++ String.concat "," (map show this) ++ ")")%string.
Proof.
  intros H.
  assert (Hsos : Vector.sum_of_squares this = Ret (vsum (vmul this this))).
  { unfold Vector.sum_of_squares. rewrite accumulate_fold.
    change (fun (sos i : T) => add sos (mul i i)) with (@vVector.add_squared T ST).
    rewrite fold_add_squared. reflexivity. }
  conjs.
  - unfold Vector.dot. rewrite accumulate_dot by (cbn; lia). reflexivity.
  - unfold Vector.length. rewrite Hsos. reflexivity.
  - unfold Vector.operator_not, Vector.length. rewrite Hsos. cbn [obind].
    destruct (eqb _ _); reflexivity.
  - unfold Vector.renormalize, Vector.operator_not, Vector.length.
    rewrite Hsos. cbn [obind]. cbv zeta.
    destruct (eqb (sqrt (vsum (vmul this this))) (lit 0)); cbn [negb].
    + exists this. conjs; auto.
    + rewrite transform_map_in_place. eexists.
      conjs; [reflexivity | apply length_map | discriminate].
  - unfold Vector.asString. cbv zeta. rewrite asString_each_str.
    destruct this as [|e rest]; [reflexivity|].
    cbn [vVector.str_each]. rewrite str_each_rest, concat_commas.
    now rewrite !string_append_assoc.
Qed.

End Reductions.

End FixedVectorFacts.

(** ** The learning step *)

Section LearningFacts.

Context {T : Type} {ST : Scalar T}.

Lemma zip_with_map_r {A B C D} (f : A -> C -> D) (g : B -> C) l : forall r,
  zip_with f l (map g r) = zip_with (fun a b => f a (g b)) l r.
Proof.
  induction l as [|a l IH]; intros [|b r]; cbn [map zip_with]; try reflexivity.
  f_equal. apply IH.
Qed.

(** The accumulation over a mini-batch is a fold of component-wise sums, as
    long as each gradient has the size of the mean gradient. *)
Lemma collect_fold : forall (nablas : list (list T)) mean_gradient,
  Forall (fun nabla_w => length nabla_w = length mean_gradient) nablas ->
  nn4.collect nablas mean_gradient
  = Ret (fold_left (zip_with add) nablas mean_gradient).
Proof.
  induction nablas as [|nabla_w rest IH]; intros mean_gradient H; cbn [nn4.collect fold_left].
  - reflexivity.
  - inversion H as [|? ? Hn Hrest]; subst.
    unfold vVector.operator_plus_assign.
    rewrite with_next_in_place by lia. cbn [obind].
    apply IH. rewrite zip_with_length, Hn, Nat.min_id.
    exact Hrest.
Qed.

Lemma fold_sums_length : forall (nablas : list (list T)) mean_gradient,
  Forall (fun nabla_w => length nabla_w = length mean_gradient) nablas ->
  length (fold_left (zip_with add) nablas mean_gradient) = length mean_gradient.
Proof.
  induction nablas as [|nabla_w rest IH]; intros mean_gradient H; cbn [fold_left].
  - reflexivity.
  - inversion H as [|? ? Hn Hrest]; subst.
    assert (Hl : length (zip_with add mean_gradient nabla_w) = length mean_gradient)
      by (rewrite zip_with_length, Hn; apply Nat.min_id).
    rewrite IH by (rewrite Hl; exact Hrest). exact Hl.
Qed.

(** X22.  One pass of the learning loop of [main] on one connection: with the
    weights, the mean gradient and the gradients of the mini-batch all of
    one size, zeroing the mean gradient, adding each gradient with [+=] and
    dividing by the size of the mini-batch with [/=] leaves the
    component-wise sums of the gradients, from zero, each divided by that
    size; the update [c.w -= (mean * eta)] then leaves [w - mean * eta] at
    each subscript.  No operation reads or writes out of range, and the mean
    gradient keeps its size. *)
Theorem nn4_learning_step (w mean_gradient : list T) (nablas : list (list T))
  (eta : T) (mini_batch_size : N) :
  length mean_gradient = length w ->
  Forall (fun nabla_w => length nabla_w = length w) nablas ->
  let mean :=
    map (fun e => div e (of_uint mini_batch_size))
      (fold_left (zip_with add) nablas (map (fun _ => lit 0) mean_gradient)) in
  nn4.mean_of nablas mini_batch_size mean_gradient = Ret mean
  /\ length mean = length mean_gradient
  /\ nn4.gradient_update w mean eta
     = Ret (zip_with (fun wi mi => sub wi (mul mi eta)) w mean).
Proof.
  intros Hg Hn mean.
  assert (Hz : Forall (fun nabla_w => length nabla_w = length (vzero mean_gradient)) nablas).
  { unfold vzero. rewrite length_map, Hg. exact Hn. }
  assert (Hl : length mean = length mean_gradient).
  { unfold mean. rewrite length_map.
    change (map (fun _ : T => lit 0) mean_gradient) with (vzero mean_gradient).
    rewrite fold_sums_length by exact Hz. unfold vzero. apply length_map. }
  conjs.
  - unfold nn4.mean_of, vVector.operator_divide_assign_scalar. cbv zeta.
    rewrite collect_fold by exact Hz. cbn [obind].
    rewrite transform_map_in_place. reflexivity.
  - exact Hl.
  - unfold nn4.gradient_update, vVector.operator_times_scalar,
      vVector.operator_minus_assign. cbv zeta.
    rewrite transform_map_sized. cbn [obind].
    rewrite with_next_in_place by (rewrite length_map; lia).
    f_equal. apply zip_with_map_r.
Qed.

End LearningFacts.

(** The witness of the learning step: two weights, a mini-batch of two,
    [eta = 3]. *)
Lemma nn4_learning_step_witness :
  let mean :=
    map (fun e => div e (of_uint 2))
      (fold_left (zip_with add) [[1; 2]; [3; 4]]%float
         (map (fun _ => lit 0) [7; 7]%float)) in
  nn4.mean_of [[1; 2]; [3; 4]]%float 2 [7; 7]%float = Ret mean
  /\ length mean = length [7; 7]%float
  /\ nn4.gradient_update Run.initial_params mean 3%float
     = Ret (zip_with (fun wi mi => sub wi (mul mi 3%float)) Run.initial_params mean).
Proof.
  apply (nn4_learning_step Run.initial_params [7; 7]%float
           [[1; 2]; [3; 4]]%float 3%float 2).
  - reflexivity.
  - repeat constructor.
Defined.

(** ** The grating *)

(** X23.  [border_id_str] names the five identifiers apart: two identifiers
    have the same name only when they are the same, and [unknown] is named
    "unknown". *)
Theorem border_id_str_names_apart :
  (forall a b : border_id.t,
     String.eqb (border_id_str a) (border_id_str b) = border_id.eqb a b)
  /\ border_id_str border_id.unknown = "unknown"%string.
Proof.
  split; [|reflexivity]. intros [] []; reflexivity.
Qed.

Section GratingFacts.

Import GratingVisual.

Context {T : Type} {ST : Scalar T} {P : Type} {VP : Vec2 T P}.

Variable rc : corners P.

(** X24.  [find_border_points] by the number of borders that the line
    crosses.  None: the four reference parameters are left as they are.
    One: it throws.  Two or more: it returns two crossing points on two
    different crossed borders, the first of them on the first crossed border
    in the order bottom, top, left; the second is on the top border exactly
    when the bottom and the top are both crossed, and never on the bottom
    border. *)
Theorem find_border_points_by_crossings (_p _q : P) (r : border_points P)
  (_bi _ti _li _ri : bitset.t) :
  (crossings _bi _ti _li _ri = 0%nat ->
   find_border_points rc _p _q r _bi _ti _li _ri = Ret r)
  /\ (crossings _bi _ti _li _ri = 1%nat ->
      exists what, find_border_points rc _p _q r _bi _ti _li _ri = Throw what)
  /\ ((2 <= crossings _bi _ti _li _ri)%nat ->
      exists r',
        find_border_points rc _p _q r _bi _ti _li _ri = Ret r'
        /\ crossed _bi _ti _li _ri (fp_id r') = true
        /\ crossed _bi _ti _li _ri (fq_id r') = true
        /\ border_id.eqb (fp_id r') (fq_id r') = false
        /\ fp r' = crossing_point _p _q (fst (border_segment rc (fp_id r')))
                     (snd (border_segment rc (fp_id r')))
        /\ fq r' = crossing_point _p _q (fst (border_segment rc (fq_id r')))
                     (snd (border_segment rc (fq_id r')))
        /\ fp_id r' = (if bitset.test _bi 0 then border_id.bottom
                       else if bitset.test _ti 0 then border_id.top else border_id.left)
        /\ (fq_id r' = border_id.top <-> bitset.test _bi 0 = true /\ bitset.test _ti 0 = true)
        /\ fq_id r' <> border_id.bottom).
Proof.
  destruct _bi as [b b1], _ti as [t t1], _li as [l l1], _ri as [ri ri1].
  unfold crossings, crossed, GratingVisual.find_border_points. cbn [bitset.test fst snd filter].
  destruct b, t, l, ri; cbn [filter length app];
    (split; [|split]); intros H; try (exfalso; cbn in H; lia);
    try reflexivity; try (eexists; reflexivity).
  all: repeat match goal with
       | |- context [if coincide ?a then _ else _] =>
           destruct (coincide a)
       end.
  all: eexists; (split; [reflexivity|]); cbn;
    repeat split; try reflexivity; try discriminate; intros [? ?]; discriminate.
Qed.

(** X25.  [draw_fill_in_shape] by the borders of its two points.  The choice
    of the corners does not depend on which point is on which border.  The
    lambda throws exactly when the two borders are the same or one of them
    is [unknown].  For two borders that meet in a corner, [corner_2] stays
    as initialised and, that value being equal to itself, the shape is the
    triangle of the two points and a corner of the rectangle. *)
Theorem draw_fill_in_shape_by_borders (_p fp fq : P) (a b : border_id.t) :
  fill_in_corners rc _p a b = fill_in_corners rc _p b a
  /\ (draw_fill_in_shape rc _p fp fq a b = Throw "unexpected corner"
      <-> border_id.eqb a b = true
          \/ a = border_id.unknown \/ b = border_id.unknown)
  /\ ((exists s, draw_fill_in_shape rc _p fp fq a b = Ret s)
      <-> border_id.eqb a b = false
          /\ a <> border_id.unknown /\ b <> border_id.unknown)
  /\ (vec_eqb (vec2 (lit (-100)) (lit (-100))) (vec2 (lit (-100)) (lit (-100))) = true ->
      adjacent a b = true ->
      exists c,
        draw_fill_in_shape rc _p fp fq a b = Ret (triangle fp fq c)
        /\ In c [top_left rc; bot_left rc; bot_right rc; top_right rc]).
Proof.
  conjs.
  - destruct a, b; reflexivity.
  - unfold GratingVisual.draw_fill_in_shape.
    destruct a, b; cbn;
      repeat match goal with
      | |- context [if ?c then _ else _] => destruct c
      end;
      split; intros H; try discriminate; auto;
      destruct H as [H | [H | H]]; discriminate.
  - unfold GratingVisual.draw_fill_in_shape.
    destruct a, b; cbn;
      repeat match goal with
      | |- context [if ?c then _ else _] => destruct c
      end;
      split;
      try (intros [s H]; discriminate);
      try (intros (H1 & H2 & H3); try discriminate; try contradiction; eauto);
      try (intros _; repeat split; discriminate).
  - intros Hs Hadj. unfold GratingVisual.draw_fill_in_shape.
    destruct a, b; try discriminate; cbn; rewrite Hs; eexists;
      (split; [reflexivity|]); cbn; auto.
Qed.

(** X26.  What [find_border_points] finds, [draw_fill_in_shape] can fill in:
    after a call that returned for a line that crosses the rectangle, the two
    border identifiers are such that [draw_fill_in_shape] does not throw. *)
Theorem found_border_points_fill_in (_p _q _p' : P) (r r' : border_points P)
  (_bi _ti _li _ri : bitset.t) :
  (1 <= crossings _bi _ti _li _ri)%nat ->
  find_border_points rc _p _q r _bi _ti _li _ri = Ret r' ->
  exists s, draw_fill_in_shape rc _p' (fp r') (fq r') (fp_id r') (fq_id r') = Ret s.
Proof.
  destruct _bi as [b b1], _ti as [t t1], _li as [l l1], _ri as [ri ri1].
  unfold crossings, crossed, GratingVisual.find_border_points. cbn [bitset.test fst snd filter].
  destruct b, t, l, ri; cbn [filter length app]; intros Hn H;
    try (exfalso; cbn in Hn; lia); try discriminate H.
  all: repeat match type of H with
       | context [if coincide ?a then _ else _] => destruct (coincide a)
       end.
  all: injection H as <-; unfold GratingVisual.draw_fill_in_shape; cbn;
    repeat match goal with
    | |- context [if ?c then _ else _] => destruct c
    end; eexists; reflexivity.
Qed.

End GratingFacts.

(** The witness of the element-wise operators: two components, over
    [double]. *)
Lemma Vector_elementwise_witness :
  Vector.operator_negate [7; 7]%float Run.initial_params
  = Ret (vneg Run.initial_params)
  /\ Vector.operator_plus 2 [7; 7]%float Run.initial_params [1; 2]%float
     = Ret (vadd Run.initial_params [1; 2]%float)
  /\ Vector.operator_plus_assign 2 Run.initial_params [1; 2]%float
     = Ret (vadd Run.initial_params [1; 2]%float)
  /\ Vector.operator_minus 2 [7; 7]%float Run.initial_params [1; 2]%float
     = Ret (vsub Run.initial_params [1; 2]%float)
  /\ Vector.operator_minus_assign 2 Run.initial_params [1; 2]%float
     = Ret (vsub Run.initial_params [1; 2]%float)
  /\ Vector.operator_times_scalar 2 [7; 7]%float Run.initial_params 2%float
     = Ret (vmul_s Run.initial_params 2%float)
  /\ Vector.operator_times_assign_scalar 2 Run.initial_params 2%float
     = Ret (vmul_s Run.initial_params 2%float)
  /\ Vector.operator_divide_scalar 2 [7; 7]%float Run.initial_params 2%float
     = Ret (vdiv_s Run.initial_params 2%float)
  /\ Vector.operator_divide_assign_scalar 2 Run.initial_params 2%float
     = Ret (vdiv_s Run.initial_params 2%float)
  /\ Vector.operator_plus_scalar 2 [7; 7]%float Run.initial_params 2%float
     = Ret (vadd_s Run.initial_params 2%float)
  /\ Vector.operator_plus_assign_scalar 2 Run.initial_params 2%float
     = Ret (vadd_s Run.initial_params 2%float)
  /\ Vector.operator_minus_scalar 2 [7; 7]%float Run.initial_params 2%float
     = Ret (vsub_s Run.initial_params 2%float)
  /\ Vector.operator_minus_assign_scalar 2 Run.initial_params 2%float
     = Ret (vsub_s Run.initial_params 2%float).
Proof.
  apply (Vector_elementwise 2%nat [7; 7]%float eq_refl
           Run.initial_params [1; 2]%float 2%float); reflexivity.
Defined.

(** The witness of the reductions: the same vectors, with the square root of
    the kernel's floating-point numbers. *)
Lemma Vector_reductions_witness :
  Vector.dot Run.initial_params [1; 2]%float
  = Ret (vsum (vmul Run.initial_params [1; 2]%float))
  /\ Vector.length PrimFloat.sqrt Run.initial_params
     = Ret (PrimFloat.sqrt (vsum (vmul Run.initial_params Run.initial_params)))
  /\ Vector.operator_not PrimFloat.sqrt Run.initial_params
     = Ret (eqb (PrimFloat.sqrt (vsum (vmul Run.initial_params Run.initial_params)))
              (lit 0))
  /\ (exists r,
        Vector.renormalize PrimFloat.sqrt Run.initial_params = Ret r
        /\ length r = length Run.initial_params
        /\ (Vector.operator_not PrimFloat.sqrt Run.initial_params = Ret true ->
            r = Run.initial_params))
  /\ Vector.asString (fun _ => "1"%string) Run.initial_params
     = ("(" ++ String.concat "," (map (fun _ => "1"%string) Run.initial_params)
        ++ ")")%string.
Proof.
  apply (Vector_reductions PrimFloat.sqrt (fun _ => "1"%string)
           Run.initial_params [1; 2]%float).
  reflexivity.
Defined.

(** The witness of the composition: the vertical line through the middle of
    a rectangle. *)
Lemma found_border_points_fill_in_witness :
  exists s,
    GratingVisual.draw_fill_in_shape Plane.rectangle (1, 0)%float
      (GratingVisual.fp Plane.found) (GratingVisual.fq Plane.found)
      (GratingVisual.fp_id Plane.found) (GratingVisual.fq_id Plane.found)
    = Ret s.
Proof.
  apply (found_border_points_fill_in Plane.rectangle (1, 2)%float (1, -1)%float
           (1, 0)%float Plane.nowhere Plane.found
           (true, false) (true, false) (false, false) (false, false)).
  - vm_compute. lia.
  - vm_compute. reflexivity.
Defined.
